(** * capaNCDT controller: protocol layer of [controller.py]

    A shallow embedding of the two protocol routines of the DT6220 client:
    [ControlSocket.command] (text command / response classification) and
    [DataSocket.inspect_header] / [DataSocket.get_data] (reassembly of the
    binary measurement stream), followed by the properties proved about
    them. *)

From Stdlib Require Import ZArith List Bool Lia String Ascii PeanoNat.
From Stdlib Require Import Strings.Byte.
Import ListNotations.

Local Open Scope Z_scope.

(** ** Python values used by the module *)

Definition bytes := list byte.

Definition byte_val (b : byte) : Z := Z.of_N (Byte.to_N b).

(** Little-endian reading of a byte string, unsigned and two's complement
    (the [<] formats of [struct] and the [newbyteorder('<')] dtype). *)
Fixpoint le_unsigned (bs : bytes) : Z :=
  match bs with
  | [] => 0
  | b :: rest => byte_val b + 256 * le_unsigned rest
  end.

Definition le_signed (bs : bytes) : Z :=
  let w := 8 * Z.of_nat (List.length bs) in
  let u := le_unsigned bs in
  if u <? 2 ^ (w - 1) then u else u - 2 ^ w.

(** Python slice bounds: a negative index counts from the end, and every
    bound is clamped to [0 .. len]. *)
Definition slice_bound (len : nat) (i : Z) : nat :=
  if i <? 0 then Z.to_nat (Z.of_nat len + i) else Nat.min (Z.to_nat i) len.

(** [l[lo:hi]] *)
Definition slice {A} (l : list A) (lo hi : Z) : list A :=
  let a := slice_bound (List.length l) lo in
  let b := slice_bound (List.length l) hi in
  firstn (b - a) (skipn a l).

(** [l[lo:]] *)
Definition slice_from {A} (l : list A) (lo : Z) : list A :=
  skipn (slice_bound (List.length l) lo) l.

(** The exceptions that can leave the two routines.  [DeviceError] carries
    which of the module's messages was formatted. *)
Inductive device_error :=
| CouldNotExecute (com : string)
| UnknownCommand (com : string)
| WrongParameter (com : string)
| UnexpectedResponse (response : string)
| OnlyChannels (nr_of_channels : Z).

Inductive exn :=
| DeviceError (e : device_error)
| SocketTimeout
| StructError
| ValueError
| IndexError
| UnicodeEncodeError
| UnicodeDecodeError.

(** ** [DataSocket.inspect_header] *)

(** [struct.unpack] of a little-endian format made of signed integers of the
    given sizes; the buffer must have exactly the size of the format. *)
Fixpoint unpack_fields (sizes : list nat) (buf : bytes) : list Z :=
  match sizes with
  | [] => []
  | k :: rest => le_signed (firstn k buf) :: unpack_fields rest (skipn k buf)
  end.

Definition struct_unpack (sizes : list nat) (buf : bytes) : option (list Z) :=
  if (List.length buf =? list_sum sizes)%nat then Some (unpack_fields sizes buf)
  else None.

(** ['<iiiqihhi'] *)
Definition header_format : list nat := [4; 4; 4; 8; 4; 2; 2; 4]%nat.

(** ['{0:064b}'.format(z)]: sign, zero padding up to 64 characters, binary
    digits of the magnitude. *)
Fixpoint bin_digits (p : positive) : string :=
  match p with
  | xH => "1"
  | xO q => bin_digits q ++ "0"
  | xI q => bin_digits q ++ "1"
  end%string.

Fixpoint zeros_string (n : nat) : string :=
  match n with
  | O => EmptyString
  | S m => String "0" (zeros_string m)
  end.

Definition format_064b (z : Z) : string :=
  let sign := if z <? 0 then "-"%string else EmptyString in
  let digits :=
    match z with
    | Z0 => "0"%string
    | Zpos p => bin_digits p
    | Zneg p => bin_digits p
    end in
  (sign ++ zeros_string (64 - String.length sign - String.length digits)
        ++ digits)%string.

(** [s.count(c)] for a one-character [c]. *)
Fixpoint count_char (c : ascii) (s : string) : Z :=
  match s with
  | EmptyString => 0
  | String a rest => (if Ascii.eqb a c then 1 else 0) + count_char c rest
  end.

Record header_info := {
  nr_of_channels : Z;
  nr_of_frames : Z;
  bytes_per_frame : Z;
  payload_size : Z
}.

Definition inspect_header (data_stream : bytes) : option header_info :=
  match struct_unpack header_format (slice data_stream 0 32) with
  | None => None
  | Some header =>
      let channel_field := nth 3 header 0 in
      let nr_of_channels := count_char "1" (format_064b channel_field) in
      let nr_of_frames := nth 6 header 0 in
      let bytes_per_frame := nth 5 header 0 in
      let payload_size := bytes_per_frame * nr_of_frames in
      Some {| nr_of_channels := nr_of_channels;
              nr_of_frames := nr_of_frames;
              bytes_per_frame := bytes_per_frame;
              payload_size := payload_size |}
  end.

(** ** [DataSocket.get_data] *)

(** numpy arrays as they leave [get_data]: one- or two-dimensional. *)
Inductive ndarray :=
| Array1 (items : list Z)
| Array2 (rows : list (list Z)).

(** [np.zeros((r, c))] *)
Definition np_zeros (r c : nat) : list (list Z) := repeat (repeat 0 c) r.

(** [a.T] for an array with [c] columns. *)
Definition transpose (c : nat) (a : list (list Z)) : list (list Z) :=
  map (fun j => map (fun row => nth j row 0) a) (seq 0 c).

(** [a[i] = row]; an index past the end raises. *)
Fixpoint set_row (a : list (list Z)) (i : nat) (row : list Z)
  : option (list (list Z)) :=
  match a, i with
  | [], _ => None
  | _ :: rest, O => Some (row :: rest)
  | r :: rest, S j =>
      match set_row rest j row with
      | Some rest' => Some (r :: rest')
      | None => None
      end
  end.

(** [arr[i]] for an integer index, negative indices counting from the end. *)
Definition item (arr : list Z) (i : Z) : option Z :=
  let len := Z.of_nat (List.length arr) in
  if (- len <=? i) && (i <? len)
  then nth_error arr (Z.to_nat (if i <? 0 then i + len else i))
  else None.

(** [arr[channels]] for [channels] a Python list of indices (as in the
    module example, [channels=[0,1]]). *)
Fixpoint take (arr : list Z) (channels : list Z) : option (list Z) :=
  match channels with
  | [] => Some []
  | c :: rest =>
      match item arr c, take arr rest with
      | Some v, Some vs => Some (v :: vs)
      | _, _ => None
      end
  end.

(** [max(channels)]; raises on an empty sequence. *)
Definition py_max (l : list Z) : option Z :=
  match l with
  | [] => None
  | x :: rest => Some (fold_left Z.max rest x)
  end.

(** The data socket as seen by [recv]: what successive calls yield, a chunk
    of bytes or [socket.timeout].  Once the script is used up nothing more
    arrives and every further call times out. *)
Inductive event :=
| Recv (chunk : bytes)
| Timeout.

Definition socket := list event.

Inductive awaited :=
| Filled (data_stream : bytes) (s : socket)
| TimedOut (data_stream : bytes) (s : socket).

(** [while len(data_stream) < target: data_stream += recv(65536)], stopped
    by the first timeout. *)
Fixpoint await (target : Z) (data_stream : bytes) (s : socket) : awaited :=
  if Z.of_nat (List.length data_stream) <? target then
    match s with
    | [] => TimedOut data_stream []
    | Timeout :: s' => TimedOut data_stream s'
    | Recv chunk :: s' => await target (data_stream ++ chunk) s'
    end
  else Filled data_stream s.

Section GetData.

(** Size in bytes of [np.dtype(int)]: 4 where the C [long] has 32 bits
    (the layout of the class docstring, [n * 4] bytes per frame), 8 where
    it has 64. *)
Variable itemsize : nat.

Fixpoint items_of (count : nat) (buf : bytes) : list Z :=
  match count with
  | O => []
  | S c => le_signed (firstn itemsize buf) :: items_of c (skipn itemsize buf)
  end.

(** [np.frombuffer(buf, data_type)] *)
Definition frombuffer (buf : bytes) : option (list Z) :=
  if (List.length buf mod itemsize =? 0)%nat
  then Some (items_of (List.length buf / itemsize) buf)
  else None.

Variable data_points : nat.
Variable channels : list Z.

(** The [for i in range(nr_of_frames)] loop over one payload. *)
Fixpoint frames_loop (payload : bytes) (bytes_per_frame : Z)
         (range : list nat) (data : list (list Z))
         (received_data_points : nat)
  : exn + (list (list Z) * nat) :=
  match range with
  | [] => inr (data, received_data_points)
  | i :: range' =>
      if (received_data_points <? data_points)%nat then
        match frombuffer (slice payload (Z.of_nat i * bytes_per_frame)
                                ((Z.of_nat i + 1) * bytes_per_frame)) with
        | None => inl ValueError
        | Some arr =>
            match take arr channels with
            | None => inl IndexError
            | Some row =>
                match set_row data received_data_points row with
                | None => inl IndexError
                | Some data' =>
                    frames_loop payload bytes_per_frame range' data'
                                (S received_data_points)
                end
            end
        end
      else inr (data, received_data_points)
  end.

Record state := {
  data_stream : bytes;
  data : list (list Z);
  received_data_points : nat;
  sock : socket
}.

(** How the [while received_data_points < data_points] loop is left. *)
Inductive outcome :=
| LoopDone (st : state)   (* condition false: on to [if len(channels) == 1] *)
| NoData (st : state)     (* [return data] in the timeout handler *)
| Raised (e : exn) (st : state).

Fixpoint get_data_loop (fuel : nat) (st : state) : option outcome :=
  if (received_data_points st <? data_points)%nat then
    match fuel with
    | O => None
    | S fuel' =>
        match await 32 (data_stream st) (sock st) with
        | TimedOut buf s =>
            Some (NoData {| data_stream := buf; data := data st;
                            received_data_points := received_data_points st;
                            sock := s |})
        | Filled buf s =>
            let st1 := {| data_stream := buf; data := data st;
                          received_data_points := received_data_points st;
                          sock := s |} in
            match inspect_header buf with
            | None => Some (Raised StructError st1)
            | Some h =>
                match py_max channels with
                | None => Some (Raised ValueError st1)
                | Some m =>
                    if m + 1 >? nr_of_channels h then
                      Some (Raised (DeviceError
                                      (OnlyChannels (nr_of_channels h))) st1)
                    else
                      match await (32 + payload_size h) buf s with
                      | TimedOut buf' s' =>
                          Some (Raised SocketTimeout
                                  {| data_stream := buf'; data := data st;
                                     received_data_points :=
                                       received_data_points st;
                                     sock := s' |})
                      | Filled buf' s' =>
                          let payload :=
                            slice buf' 32 (32 + payload_size h) in
                          match frames_loop payload (bytes_per_frame h)
                                  (seq 0 (Z.to_nat (nr_of_frames h)))
                                  (data st) (received_data_points st) with
                          | inl e =>
                              Some (Raised e
                                      {| data_stream := buf';
                                         data := data st;
                                         received_data_points :=
                                           received_data_points st;
                                         sock := s' |})
                          | inr (data', received') =>
                              get_data_loop fuel'
                                {| data_stream :=
                                     slice_from buf' (32 + payload_size h);
                                   data := data';
                                   received_data_points := received';
                                   sock := s' |}
                          end
                      end
                end
            end
        end
    end
  else Some (LoopDone st).

(** The state [get_data] starts from. *)
Definition initial (s : socket) : state :=
  {| data_stream := [];
     data := np_zeros data_points (List.length channels);
     received_data_points := 0;
     sock := s |}.

(** What the caller receives from each way of leaving the loop. *)
Definition returned (o : outcome) : exn + ndarray :=
  match o with
  | LoopDone st =>
      let t := transpose (List.length channels) (data st) in
      if (List.length channels =? 1)%nat then
        match t with
        | r :: _ => inr (Array1 r)
        | [] => inl IndexError
        end
      else inr (Array2 t)
  | NoData st => inr (Array2 (data st))
  | Raised e _ => inl e
  end.

Definition final_state (o : outcome) : state :=
  match o with
  | LoopDone st | NoData st | Raised _ st => st
  end.

End GetData.

(** [get_data(data_points, channels)] on a socket; [None] only when the
    fuel for the outer loop runs out. *)
Definition get_data_run (itemsize : nat) (fuel : nat) (data_points : Z)
           (channels : list Z) (s : socket) : option outcome :=
  if data_points <? 0 then
    Some (Raised ValueError (initial 0 channels s))
  else
    let n := Z.to_nat data_points in
    get_data_loop itemsize n channels fuel (initial n channels s).

Definition get_data (itemsize : nat) (fuel : nat) (data_points : Z)
           (channels : list Z) (s : socket)
  : option ((exn + ndarray) * socket) :=
  match get_data_run itemsize fuel data_points channels s with
  | None => None
  | Some o => Some (returned channels o, sock (final_state o))
  end.

(** ** [ControlSocket.command] *)

Local Open Scope string_scope.

Definition CR : ascii := "013"%char.
Definition LF : ascii := "010"%char.

(** [s.replace(c, '')] for a one-character [c]. *)
Fixpoint remove_char (c : ascii) (s : string) : string :=
  match s with
  | EmptyString => EmptyString
  | String a rest =>
      if Ascii.eqb a c then remove_char c rest
      else String a (remove_char c rest)
  end.

Definition is_crlf (a : ascii) : bool := Ascii.eqb a CR || Ascii.eqb a LF.

Fixpoint lstrip_crlf (s : string) : string :=
  match s with
  | EmptyString => EmptyString
  | String a rest => if is_crlf a then lstrip_crlf rest else s
  end.

Fixpoint rstrip_crlf (s : string) : string :=
  match s with
  | EmptyString => EmptyString
  | String a rest =>
      match rstrip_crlf rest with
      | EmptyString => if is_crlf a then EmptyString else String a EmptyString
      | rest' => String a rest'
      end
  end.

(** [s.strip('\r\n')]: both ends, any run of the two characters. *)
Definition strip_crlf (s : string) : string := rstrip_crlf (lstrip_crlf s).

(** [s[n:]] for [n >= 0]. *)
Fixpoint drop (n : nat) (s : string) : string :=
  match n, s with
  | O, _ => s
  | S _, EmptyString => EmptyString
  | S m, String _ rest => drop m rest
  end.

(** [s[:n]] for [n >= 0]. *)
Fixpoint keep (n : nat) (s : string) : string :=
  match n, s with
  | O, _ => EmptyString
  | S _, EmptyString => EmptyString
  | S m, String a rest => String a (keep m rest)
  end.

(** [s.startswith(p)] *)
Fixpoint startswith (p s : string) : bool :=
  match p, s with
  | EmptyString, _ => true
  | String _ _, EmptyString => false
  | String a p', String b s' => Ascii.eqb a b && startswith p' s'
  end.

(** [s.endswith(suf)] *)
Definition endswith (suf s : string) : bool :=
  (String.length suf <=? String.length s)%nat
  && String.eqb (drop (String.length s - String.length suf) s) suf.

(** [s.encode('ascii')]: fails on a character above 127. *)
Definition is_ascii_char (a : ascii) : bool := (nat_of_ascii a <? 128)%nat.

Fixpoint encode_ascii (s : string) : option bytes :=
  match s with
  | EmptyString => Some []
  | String a rest =>
      if is_ascii_char a then
        match encode_ascii rest with
        | Some bs => Some (byte_of_ascii a :: bs)
        | None => None
        end
      else None
  end.

(** [raw.decode('ascii')]: fails on a byte above 127. *)
Fixpoint decode_ascii (raw : bytes) : option string :=
  match raw with
  | [] => Some EmptyString
  | b :: rest =>
      if is_ascii_char (ascii_of_byte b) then
        match decode_ascii rest with
        | Some s => Some (String (ascii_of_byte b) s)
        | None => None
        end
      else None
  end.

(** The Telnet connection during one exchange: whether [write] raises
    [OSError], and what the single [read_eager] yields. *)
Inductive read_result :=
| ReadBytes (raw : bytes)
| ReadEOFError
| ReadOSError.

Record telnet := {
  write_raises : bool;
  eager : read_result
}.

(** The calls made on the connection, in order. *)
Inductive io :=
| Wrote (sent : bytes)
| WriteFailed (sent : bytes)
| Read (r : read_result).

(** The part of [command] after the [try] block: classification of the
    decoded, stripped response against the cleaned command. *)
Definition classify (com response : string) : exn + string :=
  if startswith ("$" ++ com) response then
    let response := drop (String.length com + 1) response in
    if endswith "OK" response then
      inr (keep (String.length response - 2) response)
    else if String.eqb response "$UNKNOWN COMMAND" then
      inl (DeviceError (UnknownCommand com))
    else if String.eqb response "$WRONG PARAMETER" then
      inl (DeviceError (WrongParameter com))
    else inl (DeviceError (UnexpectedResponse response))
  else inl (DeviceError (UnexpectedResponse response)).

Definition command (com : string) (t : telnet) : (exn + string) * list io :=
  let com := remove_char LF (remove_char CR com) in
  match encode_ascii com with
  | None => (inl UnicodeEncodeError, [])
  | Some payload =>
      let sent :=
        (["$"%byte] ++ payload ++ [byte_of_ascii CR; byte_of_ascii LF])%list
      in
      if write_raises t then
        (inl (DeviceError (CouldNotExecute com)), [WriteFailed sent])
      else
        match eager t with
        | ReadBytes raw =>
            match decode_ascii raw with
            | None => (inl UnicodeDecodeError, [Wrote sent; Read (eager t)])
            | Some response =>
                (classify com (strip_crlf response),
                 [Wrote sent; Read (eager t)])
            end
        | _ =>
            (inl (DeviceError (CouldNotExecute com)),
             [Wrote sent; Read (eager t)])
        end
  end.

Local Close Scope string_scope.

(** ** [ControlSocket.connect] and [Controller.check_status] *)

Local Open Scope string_scope.

(** A Telnet connection over its lifetime, from [open] to [close]: whether
    [open] raises [OSError], whether each successive [write] does (none
    listed: the write goes through), and what each successive [read_eager]
    yields (none listed: nothing is available, the empty bytes). *)
Record line := {
  open_raises : bool;
  writes_raise : list bool;
  reads : list read_result
}.

(** The two [DeviceError]s of [connect]. *)
Inductive connect_error :=
| CouldNotConnect
| ClosedUnexpectedly.

(** What can leave a [with self.control_socket] block. *)
Inductive failure :=
| ConnectRaised (e : connect_error)
| CommandRaised (e : exn)
| OSErrorRaised.

(** [except DeviceError] *)
Definition is_device_error (f : failure) : bool :=
  match f with
  | ConnectRaised _ => true
  | CommandRaised (DeviceError _) => true
  | _ => false
  end.

(** [while self.control_socket.read_eager(): pass]: an [EOFError] becomes
    the device error, an [OSError] is not caught. *)
Fixpoint drain (incoming : list read_result)
  : option failure * list read_result :=
  match incoming with
  | [] => (None, [])
  | ReadBytes [] :: rest => (None, rest)
  | ReadBytes (_ :: _) :: rest => drain rest
  | ReadEOFError :: rest => (Some (ConnectRaised ClosedUnexpectedly), rest)
  | ReadOSError :: rest => (Some OSErrorRaised, rest)
  end.

Definition connect (l : line) : failure + line :=
  if open_raises l then inl (ConnectRaised CouldNotConnect)
  else
    match drain (reads l) with
    | (Some f, _) => inl f
    | (None, rest) =>
        inr {| open_raises := false;
               writes_raise := writes_raise l;
               reads := rest |}
    end.

Definition is_write (c : io) : bool :=
  match c with
  | Wrote _ | WriteFailed _ => true
  | Read _ => false
  end.

Definition is_read (c : io) : bool :=
  match c with
  | Read _ => true
  | _ => false
  end.

(** [command] on a connection: it sees the next write and the next read
    of the line, and uses up those it calls. *)
Definition command_on (com : string) (l : line) : (exn + string) * line :=
  let t := {| write_raises := hd false (writes_raise l);
              eager := hd (ReadBytes []) (reads l) |} in
  let calls := snd (command com t) in
  (fst (command com t),
   {| open_raises := open_raises l;
      writes_raise := if existsb is_write calls then tl (writes_raise l)
                      else writes_raise l;
      reads := if existsb is_read calls then tl (reads l) else reads l |}).

(** [s.split(sep)] for a one-character separator. *)
Fixpoint split_on (sep : ascii) (s : string) : list string :=
  match s with
  | EmptyString => [EmptyString]
  | String a rest =>
      if Ascii.eqb a sep then EmptyString :: split_on sep rest
      else
        match split_on sep rest with
        | first :: others => String a first :: others
        | [] => [String a EmptyString]
        end
  end.

(** The [for new, old in zip(status_new, status_old)] loop: the pairs
    [(old, new)] for which a warning is printed. *)
Fixpoint changed (status_new status_old : list string)
  : list (string * string) :=
  match status_new, status_old with
  | new :: news, old :: olds =>
      if String.eqb new old then changed news olds
      else (old, new) :: changed news olds
  | _, _ => []
  end.

(** The effect of one call of [check_status]: the attribute
    [status_response] afterwards, the warnings printed, the [DeviceError]
    caught and printed, and the exception that leaves the call. *)
Record checked := {
  status_response : option string;
  warnings : list (string * string);
  caught : option failure;
  propagated : option failure
}.

Definition check_status_failed (previous : option string) (f : failure)
  : checked :=
  if is_device_error f then
    {| status_response := previous; warnings := [];
       caught := Some f; propagated := None |}
  else
    {| status_response := previous; warnings := [];
       caught := None; propagated := Some f |}.

(** [check_status] with [self.status_response = previous], on the
    connection the [with] block opens ([__exit__] closes it on every way
    out). *)
Definition check_status (previous : option string) (l : line) : checked :=
  match connect l with
  | inl f => check_status_failed previous f
  | inr cs =>
      match command_on "STS" cs with
      | (inl e, _) => check_status_failed previous (CommandRaised e)
      | (inr response1, cs') =>
          match command_on "LIN?" cs' with
          | (inl e, _) => check_status_failed previous (CommandRaised e)
          | (inr response2, _) =>
              let status := response1 ++ ";LIN" ++ response2 in
              {| status_response := Some status;
                 warnings :=
                   match previous with
                   | None => []
                   | Some old =>
                       changed (split_on ";" status) (split_on ";" old)
                   end;
                 caught := None;
                 propagated := None |}
          end
      end
  end.

Local Close Scope string_scope.

(** ** Reference notions used in the statements *)

(** Number of 1 bits in the magnitude of an integer. *)
Fixpoint pos_ones (p : positive) : Z :=
  match p with
  | xH => 1
  | xO q => pos_ones q
  | xI q => 1 + pos_ones q
  end.

Definition ones (z : Z) : Z :=
  match z with
  | Z0 => 0
  | Zpos p => pos_ones p
  | Zneg p => pos_ones p
  end.

(** The channel field read as the class docstring describes it: two bits
    per channel, [01] for a channel that is present. *)
Definition groups_of_byte (b : byte) : list Z :=
  let v := byte_val b in [v mod 4; v / 4 mod 4; v / 16 mod 4; v / 64].

Definition count_01_groups (field : bytes) : Z :=
  Z.of_nat
    (List.length (filter (fun g => g =? 1) (flat_map groups_of_byte field))).

(** Every group of the field is [00] or [01]. *)
Definition only_00_01 (field : bytes) : bool :=
  forallb (fun g => g <? 2) (flat_map groups_of_byte field).

(** A packet on the wire: 32 header bytes followed by the payload whose
    size the header announces. *)
Definition packet : Type := bytes * bytes.

Definition well_formed (p : packet) : bool :=
  (List.length (fst p) =? 32)%nat
  && match inspect_header (fst p) with
     | Some h => payload_size h =? Z.of_nat (List.length (snd p))
     | None => false
     end.

Definition wire (pkts : list packet) : bytes :=
  flat_map (fun p => fst p ++ snd p) pkts.

(** A socket that delivers the given chunks, one per call to [recv], and
    then nothing more. *)
Definition deliver (chunks : list bytes) : socket := map Recv chunks.

(** One byte per chunk. *)
Definition bytewise (bs : bytes) : list bytes := map (fun b => [b]) bs.

(** ** Concrete inputs *)

(** A header whose channel field has the single group [10] and whose two
    16-bit fields are both [0xffff]. *)
Definition header_10_ffff : bytes :=
  [x4d; x45; x41; x53;  x00; x00; x00; x00;  x00; x00; x00; x00;
   x02; x00; x00; x00; x00; x00; x00; x00;   x00; x00; x00; x00;
   xff; xff;  xff; xff;  x00; x00; x00; x00]%byte.

(** A header that [inspect_header] decodes as 2 channels (groups [01 01]),
    3 frames, 8 bytes per frame. *)
Definition header_2ch_3x8 : bytes :=
  [x4d; x45; x41; x53;  x00; x00; x00; x00;  x00; x00; x00; x00;
   x05; x00; x00; x00; x00; x00; x00; x00;   x00; x00; x00; x00;
   x08; x00;  x03; x00;  x00; x00; x00; x00]%byte.

(** The same header with the two 16-bit fields exchanged: 3 at offset 24,
    8 at offset 26. *)
Definition header_3_8 : bytes :=
  [x4d; x45; x41; x53;  x00; x00; x00; x00;  x00; x00; x00; x00;
   x05; x00; x00; x00; x00; x00; x00; x00;   x00; x00; x00; x00;
   x03; x00;  x08; x00;  x00; x00; x00; x00]%byte.

(** Three frames of two little-endian int32: (10,20), (11,21), (12,22). *)
Definition payload_3x8 : bytes :=
  [x0a; x00; x00; x00;  x14; x00; x00; x00;
   x0b; x00; x00; x00;  x15; x00; x00; x00;
   x0c; x00; x00; x00;  x16; x00; x00; x00]%byte.

(** A connection on which the write goes through and the read yields
    [raw]. *)
Definition replying (raw : bytes) : telnet :=
  {| write_raises := false; eager := ReadBytes raw |}.

(** The reply [$STSOK] preceded by a line feed, and a reply made of the
    single byte [0xff]. *)
Definition reply_lf_sts_ok : bytes :=
  [x0a; x24; x53; x54; x53; x4f; x4b]%byte.

Definition reply_ff : bytes := [xff]%byte.

(** The reply [$STI50000,50000OK] followed by CR LF. *)
Definition reply_sti_ok : bytes :=
  [x24; x53; x54; x49; x35; x30; x30; x30; x30;
   x2c; x35; x30; x30; x30; x30; x4f; x4b; x0d; x0a]%byte.

(** A string made of CR and LF characters only. *)
Fixpoint all_crlf (s : string) : bool :=
  match s with
  | EmptyString => true
  | String a rest => is_crlf a && all_crlf rest
  end.

(** The rows a payload holds for the requested channels: every frame of
    the range decoded with [frombuffer] and indexed with the channels, as
    the frame loop does it. *)
Fixpoint frame_rows (itemsize : nat) (channels : list Z) (payload : bytes)
         (bytes_per_frame : Z) (range : list nat) : option (list (list Z)) :=
  match range with
  | [] => Some []
  | i :: range' =>
      match frombuffer itemsize
              (slice payload (Z.of_nat i * bytes_per_frame)
                     ((Z.of_nat i + 1) * bytes_per_frame)) with
      | None => None
      | Some arr =>
          match take arr channels,
                frame_rows itemsize channels payload bytes_per_frame range'
          with
          | Some row, Some rows => Some (row :: rows)
          | _, _ => None
          end
      end
  end.

(** The rows of a packet that passes the channel check of [get_data]. *)
Definition packet_rows (itemsize : nat) (channels : list Z) (p : packet)
  : option (list (list Z)) :=
  match inspect_header (fst p), py_max channels with
  | Some h, Some m =>
      if m + 1 >? nr_of_channels h then None
      else frame_rows itemsize channels (snd p) (bytes_per_frame h)
                      (seq 0 (Z.to_nat (nr_of_frames h)))
  | _, _ => None
  end.

Fixpoint stream_rows (itemsize : nat) (channels : list Z)
         (pkts : list packet) : option (list (list Z)) :=
  match pkts with
  | [] => Some []
  | p :: rest =>
      match packet_rows itemsize channels p,
            stream_rows itemsize channels rest with
      | Some rows, Some more => Some (rows ++ more)
      | _, _ => None
      end
  end.

(** Rows of data points as [get_data] hands them back at the end of its
    loop: transposed, and flat when one channel was requested. *)
Definition channel_major (channels : list Z) (rows : list (list Z))
  : ndarray :=
  if (List.length channels =? 1)%nat
  then Array1 (map (fun row => nth 0 row 0) rows)
  else Array2 (transpose (List.length channels) rows).

(** Two packets of three frames each. *)
Definition two_packets : list packet :=
  [(header_2ch_3x8, payload_3x8); (header_2ch_3x8, payload_3x8)].

(** A header that decodes as 2 channels, -4 frames of 8 bytes: a payload
    size of -32. *)
Definition header_minus_4x8 : bytes :=
  [x4d; x45; x41; x53;  x00; x00; x00; x00;  x00; x00; x00; x00;
   x05; x00; x00; x00; x00; x00; x00; x00;   x00; x00; x00; x00;
   x08; x00;  xfc; xff;  x00; x00; x00; x00]%byte.

(** An array of [data_points] rows with one value per requested channel:
    the shape of [data] inside [get_data]. *)
Definition sample_rows (data_points : nat) (channels : list Z)
           (a : list (list Z)) : Prop :=
  List.length a = data_points
  /\ Forall (fun row => List.length row = List.length channels) a.

(** The ASCII bytes of a string (empty when it is not ASCII). *)
Definition ascii_bytes (s : string) : bytes :=
  match encode_ascii s with
  | Some bs => bs
  | None => []
  end.

(** A connection that greets with a banner, falls silent, and then answers
    two commands: [STS] with the text [a;b] and [LIN?] with the text of the
    second argument. *)
Definition status_line (lin : string) : line :=
  {| open_raises := false;
     writes_raise := [];
     reads := [ReadBytes (ascii_bytes "DT6220");
               ReadBytes [];
               ReadBytes (ascii_bytes "$STSa;bOK");
               ReadBytes (ascii_bytes ("$LIN?" ++ lin ++ "OK"))] |}.

(** The sending side of a frame, for stating what [get_data] decodes: an
    integer as [k] bytes, little-endian two's complement; a frame as its
    items one after the other; the range of a [k]-byte item. *)
Definition byte_of_Z (z : Z) : byte :=
  match Byte.of_N (Z.to_N (z mod 256)) with
  | Some b => b
  | None => x00
  end.

Fixpoint le_encode (k : nat) (z : Z) : bytes :=
  match k with
  | O => []
  | S k' => byte_of_Z z :: le_encode k' (z / 256)
  end.

Definition frame_bytes (itemsize : nat) (frame : list Z) : bytes :=
  flat_map (le_encode itemsize) frame.

Definition fits (itemsize : nat) (z : Z) : Prop :=
  - 2 ^ (8 * Z.of_nat itemsize - 1) <= z < 2 ^ (8 * Z.of_nat itemsize - 1).

(** The requested channels of each frame of a table of values. *)
Fixpoint project (channels : list Z) (frames : list (list Z))
  : option (list (list Z)) :=
  match frames with
  | [] => Some []
  | frame :: rest =>
      match take frame channels, project channels rest with
      | Some row, Some rows => Some (row :: rows)
      | _, _ => None
      end
  end.

(** * Properties *)

(** ** Slices and little-endian integers *)

Lemma slice_bound_nonneg (len : nat) (i : Z) :
  0 <= i -> slice_bound len i = Nat.min (Z.to_nat i) len.
Proof.
  intros Hi. unfold slice_bound.
  destruct (i <? 0) eqn:E; [apply Z.ltb_lt in E; lia | reflexivity].
Qed.

Lemma slice_firstn_skipn {A} (l : list A) (lo hi : nat) :
  (lo <= hi <= List.length l)%nat ->
  slice l (Z.of_nat lo) (Z.of_nat hi) = firstn (hi - lo) (skipn lo l).
Proof.
  intros H. unfold slice.
  rewrite !slice_bound_nonneg by lia. rewrite !Nat2Z.id.
  rewrite !Nat.min_l by lia. reflexivity.
Qed.

Lemma slice_from_skipn {A} (l : list A) (lo : nat) :
  (lo <= List.length l)%nat -> slice_from l (Z.of_nat lo) = skipn lo l.
Proof.
  intros H. unfold slice_from.
  rewrite slice_bound_nonneg by lia. rewrite Nat2Z.id, Nat.min_l by lia.
  reflexivity.
Qed.

Lemma slice_prefix {A} (l : list A) (n : nat) :
  (n <= List.length l)%nat -> slice l 0 (Z.of_nat n) = firstn n l.
Proof.
  intros H. change 0 with (Z.of_nat 0).
  rewrite slice_firstn_skipn by lia. now rewrite Nat.sub_0_r.
Qed.

Lemma byte_val_range (b : byte) : 0 <= byte_val b < 256.
Proof.
  unfold byte_val. pose proof (Byte.to_N_bounded b) as H. lia.
Qed.

Lemma le_unsigned_range (bs : bytes) :
  0 <= le_unsigned bs < 2 ^ (8 * Z.of_nat (List.length bs)).
Proof.
  induction bs as [|b bs IH]; [simpl; lia|].
  cbn [le_unsigned List.length]. pose proof (byte_val_range b) as Hb.
  replace (8 * Z.of_nat (S (List.length bs)))
    with (8 + 8 * Z.of_nat (List.length bs)) by lia.
  rewrite Z.pow_add_r by lia. change (2 ^ 8) with 256. nia.
Qed.

Lemma le_signed_range (bs : bytes) :
  bs <> [] ->
  - 2 ^ (8 * Z.of_nat (List.length bs) - 1) <= le_signed bs
  < 2 ^ (8 * Z.of_nat (List.length bs) - 1).
Proof.
  intros Hne. unfold le_signed.
  pose proof (le_unsigned_range bs) as Hr.
  assert (Hlen : 0 < Z.of_nat (List.length bs))
    by (destruct bs; [congruence | cbn [List.length]; lia]).
  set (w := 8 * Z.of_nat (List.length bs)) in *.
  assert (Hw : 2 ^ w = 2 * 2 ^ (w - 1)).
  { replace w with (1 + (w - 1)) at 1 by lia.
    rewrite Z.pow_add_r by lia. reflexivity. }
  destruct (le_unsigned bs <? 2 ^ (w - 1)) eqn:E.
  - apply Z.ltb_lt in E. lia.
  - apply Z.ltb_ge in E. lia.
Qed.

(** ** The header decoder *)

Lemma count_char_app (c : ascii) (s t : string) :
  count_char c (s ++ t) = count_char c s + count_char c t.
Proof.
  induction s as [|a s IH]; cbn [append count_char]; [reflexivity|].
  rewrite IH. lia.
Qed.

Lemma count_char_zeros (n : nat) : count_char "1" (zeros_string n) = 0.
Proof. induction n as [|n IH]; cbn; [reflexivity | exact IH]. Qed.

Lemma count_char_bin_digits (p : positive) :
  count_char "1" (bin_digits p) = pos_ones p.
Proof.
  induction p as [q IH|q IH|]; cbn [bin_digits pos_ones].
  - rewrite count_char_app, IH.
    change (count_char "1" "1"%string) with 1. lia.
  - rewrite count_char_app, IH.
    change (count_char "1" "0"%string) with 0. lia.
  - reflexivity.
Qed.

(** Counting the character [1] in the 64-column binary rendering is the
    bit count of the magnitude. *)
Lemma count_ones_format (z : Z) : count_char "1" (format_064b z) = ones z.
Proof.
  unfold format_064b.
  rewrite !count_char_app, count_char_zeros.
  destruct z as [|p|p]; cbn [ones Z.ltb Z.compare];
    rewrite ?count_char_bin_digits;
    cbn [count_char Ascii.eqb Bool.eqb andb]; lia.
Qed.

Lemma ones_nonneg (z : Z) : 0 <= ones z.
Proof.
  assert (H : forall p, 0 < pos_ones p)
    by (induction p; cbn [pos_ones]; lia).
  destruct z as [|p|p]; cbn [ones]; [lia | |]; specialize (H p); lia.
Qed.

Lemma ones_byte_shift (b : byte) (z : Z) :
  0 <= z -> ones (byte_val b + 256 * z) = ones (byte_val b) + ones z.
Proof.
  intros Hz. destruct z as [|p|p]; [| |lia].
  - rewrite Z.mul_0_r, Z.add_0_r. cbn [ones]. lia.
  - destruct b;
      match goal with
      | |- ones ?a = ones ?c + _ =>
          let a' := eval cbv in a in
          let c' := eval cbv in (ones c) in
          change a with a'; change (ones c) with c'
      end; cbn [ones pos_ones]; lia.
Qed.

(** On a byte made of [00] and [01] groups the bit count is the number of
    [01] groups. *)
Lemma ones_byte_groups (b : byte) :
  forallb (fun g => g <? 2) (groups_of_byte b) = true ->
  ones (byte_val b)
  = Z.of_nat (List.length (filter (fun g => g =? 1) (groups_of_byte b))).
Proof. destruct b; vm_compute; congruence. Qed.

Lemma ones_count_01_groups (field : bytes) :
  only_00_01 field = true -> ones (le_unsigned field) = count_01_groups field.
Proof.
  unfold only_00_01, count_01_groups.
  induction field as [|b field IH]; intros H; [reflexivity|].
  cbn [flat_map] in *. rewrite forallb_app in H.
  apply andb_true_iff in H. destruct H as [Hb Hrest].
  cbn [le_unsigned]. rewrite ones_byte_shift by apply le_unsigned_range.
  rewrite filter_app, length_app, Nat2Z.inj_add.
  rewrite (ones_byte_groups b Hb), (IH Hrest). reflexivity.
Qed.

(** A field of eight bytes whose groups are all [00] or [01] is below
    [2^63], so its signed and unsigned readings agree. *)
Lemma only_00_01_top (field : bytes) :
  List.length field = 8%nat -> only_00_01 field = true ->
  le_signed field = le_unsigned field.
Proof.
  intros Hlen H. unfold le_signed. rewrite Hlen.
  change (8 * Z.of_nat 8 - 1) with 63.
  destruct field as [|b0 [|b1 [|b2 [|b3 [|b4 [|b5 [|b6 [|b7 [|]]]]]]]]];
    try discriminate Hlen.
  assert (H7 : byte_val b7 / 64 < 2).
  { unfold only_00_01 in H. rewrite forallb_forall in H.
    apply Z.ltb_lt, H, in_flat_map. exists b7.
    split; cbn [In groups_of_byte]; tauto. }
  cbn [le_unsigned].
  pose proof (byte_val_range b0). pose proof (byte_val_range b1).
  pose proof (byte_val_range b2). pose proof (byte_val_range b3).
  pose proof (byte_val_range b4). pose proof (byte_val_range b5).
  pose proof (byte_val_range b6). pose proof (byte_val_range b7).
  assert (byte_val b7 < 128).
  { destruct (Z.lt_ge_cases (byte_val b7) 128) as [Hlt|Hge]; [exact Hlt|].
    pose proof (Z.div_le_lower_bound (byte_val b7) 64 2
                  ltac:(lia) ltac:(lia)). lia. }
  match goal with |- (if ?c then _ else _) = _ => destruct c eqn:E end;
    [reflexivity|].
  apply Z.ltb_ge in E. change (2 ^ 63) with 9223372036854775808 in E. lia.
Qed.

Lemma split_at {A} (n : nat) (l : list A) :
  (n <= List.length l)%nat ->
  exists h rest, l = (h ++ rest)%list /\ List.length h = n.
Proof.
  intros H. exists (firstn n l), (skipn n l). split.
  - symmetry. apply firstn_skipn.
  - rewrite length_firstn. lia.
Qed.

(** What [inspect_header] reads, field by field, from any buffer of at
    least 32 bytes. *)
Lemma inspect_header_fields (data_stream : bytes) :
  (32 <= List.length data_stream)%nat ->
  inspect_header data_stream
  = Some {| nr_of_channels := ones (le_signed (slice data_stream 12 20));
            nr_of_frames := le_signed (slice data_stream 26 28);
            bytes_per_frame := le_signed (slice data_stream 24 26);
            payload_size := le_signed (slice data_stream 24 26)
                            * le_signed (slice data_stream 26 28) |}.
Proof.
  intros H. destruct (split_at 32 data_stream H) as (h & rest & -> & Hlen).
  do 32 (destruct h as [|? h]; [discriminate Hlen|]).
  destruct h; [|discriminate Hlen].
  unfold inspect_header.
  cbv -[le_signed count_char format_064b ones Z.mul].
  rewrite count_ones_format. reflexivity.
Qed.

(** C2, as stated, fails: on [header_10_ffff] the decoder returns -1 for
    both 16-bit fields, where the unsigned reading is 65535, and 1 channel,
    where no 2-bit group of the field equals [01]. *)
Lemma inspect_header_not_unsigned_01_groups :
  (32 <= List.length header_10_ffff)%nat /\
  inspect_header header_10_ffff
  = Some {| nr_of_channels := 1; nr_of_frames := -1;
            bytes_per_frame := -1; payload_size := 1 |} /\
  le_unsigned (slice header_10_ffff 24 26) = 65535 /\
  le_unsigned (slice header_10_ffff 26 28) = 65535 /\
  count_01_groups (slice header_10_ffff 12 20) = 0 /\
  ~ (exists h, inspect_header header_10_ffff = Some h /\
       nr_of_frames h = le_unsigned (slice header_10_ffff 24 26) /\
       bytes_per_frame h = le_unsigned (slice header_10_ffff 26 28) /\
       nr_of_channels h = count_01_groups (slice header_10_ffff 12 20) /\
       payload_size h = nr_of_frames h * bytes_per_frame h).
Proof.
  split; [cbn [List.length header_10_ffff]; lia|].
  do 4 (split; [reflexivity|]).
  intros (h & Hh & Hf & _).
  vm_compute in Hh. injection Hh as <-. vm_compute in Hf. discriminate Hf.
Qed.

(** C2 (amended): every buffer of at least 32 bytes is decoded, with no
    validation of the field values.  The two 16-bit fields at offsets 24 and
    26 are read as signed little-endian integers, [payload_size] is their
    product and is [nr_of_frames * bytes_per_frame]; [nr_of_channels] is the
    number of 1 bits in the magnitude of the signed 64-bit little-endian
    integer at offset 12, which is the number of [01] groups whenever every
    2-bit group of the field is [00] or [01]. *)
Theorem inspect_header_signed_bit_count (data_stream : bytes) :
  (32 <= List.length data_stream)%nat ->
  exists h,
    inspect_header data_stream = Some h /\
    let a := le_signed (slice data_stream 24 26) in
    let b := le_signed (slice data_stream 26 28) in
    let field := slice data_stream 12 20 in
    ((nr_of_frames h = a /\ bytes_per_frame h = b)
     \/ (nr_of_frames h = b /\ bytes_per_frame h = a)) /\
    -32768 <= a < 32768 /\ -32768 <= b < 32768 /\
    payload_size h = a * b /\
    payload_size h = nr_of_frames h * bytes_per_frame h /\
    nr_of_channels h = ones (le_signed field) /\
    (only_00_01 field = true -> nr_of_channels h = count_01_groups field).
Proof.
  intros H. eexists. split; [apply (inspect_header_fields _ H)|].
  cbn [nr_of_frames bytes_per_frame payload_size nr_of_channels].
  assert (Hlen : forall lo hi : nat, (lo <= hi <= 32)%nat ->
            List.length (slice data_stream (Z.of_nat lo) (Z.of_nat hi))
            = (hi - lo)%nat).
  { intros lo hi Hb. rewrite slice_firstn_skipn by lia.
    rewrite length_firstn, length_skipn. lia. }
  pose proof (Hlen 24 26 ltac:(lia))%nat as H1.
  pose proof (Hlen 26 28 ltac:(lia))%nat as H2.
  pose proof (Hlen 12 20 ltac:(lia))%nat as H3.
  cbn [Z.of_nat Pos.of_succ_nat Pos.succ Nat.sub] in H1, H2, H3.
  assert (Hs : forall bs : bytes, List.length bs = 2%nat ->
                 -32768 <= le_signed bs < 32768).
  { intros bs Hbs. pose proof (le_signed_range bs) as Hr.
    rewrite Hbs in Hr. apply Hr. intros ->. discriminate Hbs. }
  split; [right; split; reflexivity|].
  split; [apply Hs; assumption|]. split; [apply Hs; assumption|].
  split; [reflexivity|]. split; [lia|]. split; [reflexivity|].
  intros Hg. rewrite (only_00_01_top _ H3 Hg).
  apply ones_count_01_groups, Hg.
Qed.

Lemma inspect_header_signed_bit_count_witness :
  exists h, inspect_header header_2ch_3x8 = Some h /\ nr_of_channels h = 2.
Proof.
  destruct (inspect_header_signed_bit_count header_2ch_3x8) as (h & Hh & Hp);
    [cbn [List.length header_2ch_3x8]; lia|].
  exists h. split; [exact Hh|].
  destruct Hp as (_ & _ & _ & _ & _ & _ & Hg).
  rewrite Hg by reflexivity. reflexivity.
Defined.

(** ** The command exchange *)

Local Open Scope string_scope.

Lemma string_length_app (s t : string) :
  String.length (s ++ t) = (String.length s + String.length t)%nat.
Proof. induction s as [|a s IH]; cbn; [reflexivity | now rewrite IH]. Qed.

Lemma keep_drop (n : nat) (s : string) : keep n s ++ drop n s = s.
Proof.
  revert s. induction n as [|n IH]; intros [|a s]; cbn; try reflexivity.
  now rewrite IH.
Qed.

Lemma drop_app (s t : string) : drop (String.length s) (s ++ t) = t.
Proof. induction s as [|a s IH]; cbn; [now destruct t | exact IH]. Qed.

Lemma keep_app (s t : string) : keep (String.length s) (s ++ t) = s.
Proof. induction s as [|a s IH]; cbn; [now destruct t | now rewrite IH]. Qed.

Lemma startswith_app (p t : string) : startswith p (p ++ t) = true.
Proof.
  induction p as [|a p IH]; cbn; [reflexivity|].
  now rewrite Ascii.eqb_refl, IH.
Qed.

Lemma startswith_drop (p s : string) :
  startswith p s = true -> s = p ++ drop (String.length p) s.
Proof.
  revert s. induction p as [|a p IH]; intros s H; cbn in *.
  - now destruct s.
  - destruct s as [|b s]; [discriminate|].
    apply andb_true_iff in H. destruct H as [Hab Hp].
    apply Ascii.eqb_eq in Hab. subst b. f_equal. now apply IH.
Qed.

Lemma endswith_app (suf t : string) : endswith suf (t ++ suf) = true.
Proof.
  unfold endswith. rewrite string_length_app.
  replace (String.length t + String.length suf - String.length suf)%nat
    with (String.length t) by lia.
  rewrite drop_app, String.eqb_refl.
  apply andb_true_iff. split; [apply Nat.leb_le; lia | reflexivity].
Qed.

Lemma endswith_keep (suf s : string) :
  endswith suf s = true ->
  s = keep (String.length s - String.length suf) s ++ suf.
Proof.
  unfold endswith. intros H. apply andb_true_iff in H. destruct H as [_ H].
  apply String.eqb_eq in H.
  rewrite <- H at 2. symmetry. apply keep_drop.
Qed.

(** [classify] returns a text exactly when the response is the echoed
    command followed by that text and the final [OK]. *)
Lemma classify_success (com response text : string) :
  classify com response = inr text <-> response = "$" ++ com ++ text ++ "OK".
Proof.
  unfold classify. split.
  - destruct (startswith ("$" ++ com) response) eqn:Hp; [|discriminate].
    apply startswith_drop in Hp.
    cbn [String.length append] in Hp.
    replace (String.length com + 1)%nat with (S (String.length com)) by lia.
    set (rest := drop (S (String.length com)) response) in *.
    destruct (endswith "OK" rest) eqn:He.
    + intros [= <-]. apply endswith_keep in He.
      cbn [String.length] in He. rewrite Hp at 1. cbn [append].
      f_equal. f_equal. exact He.
    + destruct (String.eqb rest "$UNKNOWN COMMAND"); [discriminate|].
      destruct (String.eqb rest "$WRONG PARAMETER"); discriminate.
  - intros ->.
    change ("$" ++ com ++ text ++ "OK") with (("$" ++ com) ++ text ++ "OK").
    rewrite startswith_app.
    replace (String.length com + 1)%nat with (String.length ("$" ++ com))
      by (cbn [String.length append]; lia).
    rewrite drop_app, endswith_app, string_length_app.
    cbn [String.length].
    replace (String.length text + 2 - 2)%nat with (String.length text) by lia.
    now rewrite keep_app.
Qed.

(** The read of the exchange took place and yielded [raw] only if the
    cleaned command was encodable and the write went through. *)
Lemma command_read (com : string) (t : telnet) (raw : bytes) :
  In (Read (ReadBytes raw)) (snd (command com t)) ->
  fst (command com t)
  = match decode_ascii raw with
    | None => inl UnicodeDecodeError
    | Some response =>
        classify (remove_char LF (remove_char CR com)) (strip_crlf response)
    end.
Proof.
  unfold command.
  destruct (encode_ascii (remove_char LF (remove_char CR com))) as [payload|];
    [|intros []].
  destruct (write_raises t); [cbn; intros [H|[]]; discriminate H|].
  destruct (eager t) as [raw'| |].
  - destruct (decode_ascii raw') eqn:Hd; cbn [snd fst];
      (intros [H|[H|[]]]; [discriminate H|]); injection H as ->;
      rewrite Hd; reflexivity.
  - cbn. intros [H|[H|[]]]; discriminate H.
  - cbn. intros [H|[H|[]]]; discriminate H.
Qed.

(** C6, as stated, fails.  With only trailing CR/LF stripped, the reply
    [reply_lf_sts_ok] does not start with [$STS], yet [command] returns a
    success (it strips the leading line feed too); and the reply [reply_ff]
    does not start with [$STS] either, yet [command] leaves with
    [UnicodeDecodeError], not with the unexpected-response error. *)
Lemma command_leading_crlf_and_non_ascii :
  (decode_ascii reply_lf_sts_ok = Some (String LF "$STSOK")
   /\ startswith "$STS" (rstrip_crlf (String LF "$STSOK")) = false
   /\ command "STS" (replying reply_lf_sts_ok)
      = (inr EmptyString, [Wrote [x24; x53; x54; x53; x0d; x0a]%byte;
                  Read (ReadBytes reply_lf_sts_ok)])
   /\ ~ (exists r, fst (command "STS" (replying reply_lf_sts_ok))
                   = inl (DeviceError (UnexpectedResponse r))))
  /\ (firstn 4 reply_ff <> [x24; x53; x54; x53]%byte
      /\ fst (command "STS" (replying reply_ff)) = inl UnicodeDecodeError
      /\ ~ (exists r, fst (command "STS" (replying reply_ff))
                      = inl (DeviceError (UnexpectedResponse r)))).
Proof.
  split; [split; [reflexivity|]; split; [reflexivity|];
          split; [reflexivity|] |
          split; [discriminate|]; split; [reflexivity|]];
    intros [r Hr]; vm_compute in Hr; discriminate Hr.
Qed.

(** C6 (amended): when the exchange reaches its read and the reply is
    ASCII, the reply is stripped of CR/LF characters at both ends and
    classified against the command as sent (its CR/LF removed).  If the
    stripped reply does not start with [$] and the command, the
    unexpected-response error is raised.  Otherwise, on the remainder after
    that prefix: ending in [OK] is a success returning the remainder without
    its final [OK]; [$UNKNOWN COMMAND] raises the unknown-command error;
    [$WRONG PARAMETER] raises the wrong-parameter error; anything else
    raises the unexpected-response error.  A text is returned only when the
    stripped reply is exactly [$], the command, that text and [OK]. *)
Theorem command_classification
        (com : string) (t : telnet) (raw : bytes) (reply : string) :
  In (Read (ReadBytes raw)) (snd (command com t)) ->
  decode_ascii raw = Some reply ->
  let sent := remove_char LF (remove_char CR com) in
  let response := strip_crlf reply in
  let remainder := drop (String.length sent + 1) response in
  let result := fst (command com t) in
  (startswith ("$" ++ sent) response = false ->
   result = inl (DeviceError (UnexpectedResponse response)))
  /\ (startswith ("$" ++ sent) response = true ->
      (endswith "OK" remainder = true ->
       result = inr (keep (String.length remainder - 2) remainder))
      /\ (remainder = "$UNKNOWN COMMAND" ->
          result = inl (DeviceError (UnknownCommand sent)))
      /\ (remainder = "$WRONG PARAMETER" ->
          result = inl (DeviceError (WrongParameter sent)))
      /\ (endswith "OK" remainder = false ->
          remainder <> "$UNKNOWN COMMAND" ->
          remainder <> "$WRONG PARAMETER" ->
          result = inl (DeviceError (UnexpectedResponse remainder))))
  /\ (forall text,
        result = inr text <-> response = "$" ++ sent ++ text ++ "OK").
Proof.
  intros Hread Hdec sent response remainder result.
  assert (Hres : result = classify sent response).
  { subst result. rewrite (command_read com t raw Hread), Hdec. reflexivity. }
  rewrite Hres. clear Hres result Hread Hdec.
  split; [|split].
  - intros Hp. unfold classify. now rewrite Hp.
  - intros Hp. unfold classify. rewrite Hp. fold remainder.
    split; [|split; [|split]].
    + intros He. now rewrite He.
    + intros ->. reflexivity.
    + intros ->. reflexivity.
    + intros He Hu Hw. rewrite He.
      apply String.eqb_neq in Hu, Hw. now rewrite Hu, Hw.
  - intros text. apply classify_success.
Qed.

Lemma command_classification_witness :
  fst (command "STI50000" (replying reply_sti_ok)) = inr ",50000".
Proof.
  apply (command_classification "STI50000" (replying reply_sti_ok)
           reply_sti_ok
           ("$STI50000,50000OK" ++ String CR (String LF EmptyString))).
  - cbn. right. left. reflexivity.
  - reflexivity.
  - reflexivity.
Defined.

(** C10: for every command, if the read of the exchange yields zero bytes
    the exchange fails with the unexpected-response error (on the empty
    response); it is not the could-not-execute error of a failed transport
    call, and no text is returned. *)
Theorem command_silent_device (com : string) (t : telnet) :
  In (Read (ReadBytes [])) (snd (command com t)) ->
  fst (command com t) = inl (DeviceError (UnexpectedResponse EmptyString))
  /\ (forall c, fst (command com t) <> inl (DeviceError (CouldNotExecute c)))
  /\ (forall text, fst (command com t) <> inr text).
Proof.
  intros Hread. rewrite (command_read com t [] Hread).
  cbn [decode_ascii strip_crlf lstrip_crlf rstrip_crlf].
  unfold classify. cbn [append startswith].
  split; [reflexivity|]. split; intros ?; discriminate.
Qed.

Lemma command_silent_device_witness :
  fst (command "STS" (replying []))
  = inl (DeviceError (UnexpectedResponse EmptyString)).
Proof.
  apply (command_silent_device "STS" (replying [])).
  cbn. right. left. reflexivity.
Defined.

Local Close Scope string_scope.

(** ** Waiting for bytes *)

Lemma await_enough (target : Z) (buf : bytes) (s : socket) :
  target <= Z.of_nat (List.length buf) -> await target buf s = Filled buf s.
Proof.
  intros H. destruct s as [|e s]; cbn [await];
    destruct (Z.of_nat (List.length buf) <? target) eqn:E;
    try reflexivity; apply Z.ltb_lt in E; lia.
Qed.

(** A filled buffer has reached the target and only gained bytes at its
    end. *)
Lemma await_filled (target : Z) (s : socket) :
  forall buf buf' s',
    await target buf s = Filled buf' s' ->
    target <= Z.of_nat (List.length buf')
    /\ exists extra, buf' = (buf ++ extra)%list.
Proof.
  induction s as [|e s IH]; intros buf buf' s'; cbn [await];
    destruct (Z.of_nat (List.length buf) <? target) eqn:E.
  - discriminate.
  - intros [= <- <-]. apply Z.ltb_ge in E.
    split; [exact E | exists []; now rewrite app_nil_r].
  - destruct e as [chunk|]; [|discriminate].
    intros H. destruct (IH _ _ _ H) as [Ht [extra ->]].
    split; [exact Ht|]. exists (chunk ++ extra)%list. now rewrite app_assoc.
  - intros [= <- <-]. apply Z.ltb_ge in E.
    split; [exact E | exists []; now rewrite app_nil_r].
Qed.

(** A timeout leaves the buffer short of the target. *)
Lemma await_timed_out (target : Z) (s : socket) :
  forall buf buf' s',
    await target buf s = TimedOut buf' s' ->
    Z.of_nat (List.length buf') < target
    /\ exists extra, buf' = (buf ++ extra)%list.
Proof.
  induction s as [|e s IH]; intros buf buf' s'; cbn [await];
    destruct (Z.of_nat (List.length buf) <? target) eqn:E.
  - intros [= <- <-]. apply Z.ltb_lt in E.
    split; [exact E | exists []; now rewrite app_nil_r].
  - discriminate.
  - destruct e as [chunk|].
    + intros H. destruct (IH _ _ _ H) as [Ht [extra ->]].
      split; [exact Ht|]. exists (chunk ++ extra)%list.
      now rewrite app_assoc.
    + intros [= <- <-]. apply Z.ltb_lt in E.
      split; [exact E | exists []; now rewrite app_nil_r].
  - discriminate.
Qed.

(** The header is read from the first 32 bytes only. *)
Lemma inspect_header_app (buf extra : bytes) :
  (32 <= List.length buf)%nat ->
  inspect_header (buf ++ extra) = inspect_header buf.
Proof.
  intros H. unfold inspect_header.
  change 32 with (Z.of_nat 32).
  rewrite !slice_prefix by (rewrite ?length_app; lia).
  rewrite firstn_app.
  replace (32 - List.length buf)%nat with 0%nat by lia.
  cbn [firstn]. now rewrite app_nil_r.
Qed.

(** Waiting on a socket that delivers chunks: with too few bytes in all,
    every chunk is read and the wait times out. *)
Lemma await_deliver_short (target : Z) (chunks : list bytes) :
  forall buf,
    Z.of_nat (List.length (buf ++ List.concat chunks)) < target ->
    await target buf (deliver chunks)
    = TimedOut (buf ++ List.concat chunks) [].
Proof.
  induction chunks as [|c chunks IH]; intros buf H;
    cbn [deliver map await List.concat] in *.
  - rewrite app_nil_r in *. apply Z.ltb_lt in H. now rewrite H.
  - assert (E : (Z.of_nat (List.length buf) <? target) = true).
    { apply Z.ltb_lt. rewrite length_app in H. lia. }
    rewrite E. rewrite app_assoc in *. now apply IH.
Qed.

(** With enough bytes in all, the wait stops at a chunk boundary with the
    target reached; no byte is lost or reordered. *)
Lemma await_deliver_enough (target : Z) (chunks : list bytes) :
  forall buf,
    target <= Z.of_nat (List.length (buf ++ List.concat chunks)) ->
    exists buf' chunks',
      await target buf (deliver chunks) = Filled buf' (deliver chunks')
      /\ (buf' ++ List.concat chunks' = buf ++ List.concat chunks)%list
      /\ target <= Z.of_nat (List.length buf').
Proof.
  induction chunks as [|c chunks IH]; intros buf H;
    cbn [deliver map await List.concat] in *.
  - rewrite app_nil_r in *. exists buf, [].
    destruct (Z.of_nat (List.length buf) <? target) eqn:E;
      [apply Z.ltb_lt in E; lia|].
    cbn [deliver map List.concat]. rewrite app_nil_r. auto.
  - destruct (Z.of_nat (List.length buf) <? target) eqn:E.
    + rewrite app_assoc in H.
      destruct (IH _ H) as (buf' & chunks' & Hw & He & Ht).
      exists buf', chunks'. rewrite <- app_assoc in He. auto.
    + apply Z.ltb_ge in E. exists buf, (c :: chunks). auto.
Qed.

(** A buffer that has reached the end of the first packet of a byte
    sequence holds that packet's payload after its header, and what
    follows the packet is what remains. *)
Lemma buffered_packet (buf more hd pl rest : bytes) :
  (buf ++ more = hd ++ pl ++ rest)%list ->
  List.length hd = 32%nat ->
  32 + Z.of_nat (List.length pl) <= Z.of_nat (List.length buf) ->
  slice buf 32 (32 + Z.of_nat (List.length pl)) = pl
  /\ (slice_from buf (32 + Z.of_nat (List.length pl)) ++ more = rest)%list.
Proof.
  intros He Hhd Hlen.
  set (k := (32 + List.length pl)%nat).
  assert (Hbuf : buf = ((hd ++ pl) ++ skipn k buf)%list).
  { rewrite <- (firstn_skipn k buf) at 1. f_equal.
    assert (Hf : firstn k (buf ++ more) = firstn k (hd ++ pl ++ rest))
      by now rewrite He.
    rewrite firstn_app in Hf.
    replace (k - List.length buf)%nat with 0%nat in Hf by lia.
    cbn [firstn] in Hf. rewrite app_nil_r in Hf. rewrite Hf.
    rewrite app_assoc, firstn_app.
    replace (k - List.length (hd ++ pl))%nat with 0%nat
      by (rewrite length_app; lia).
    cbn [firstn]. rewrite app_nil_r. apply firstn_all2.
    rewrite length_app. lia. }
  replace (32 + Z.of_nat (List.length pl)) with (Z.of_nat k) by lia.
  change 32 with (Z.of_nat 32).
  rewrite slice_firstn_skipn by lia. rewrite slice_from_skipn by lia.
  split.
  - rewrite Hbuf at 1. rewrite <- app_assoc.
    rewrite skipn_app, <- Hhd, skipn_all, Nat.sub_diag. cbn [app skipn].
    replace (k - List.length hd)%nat with (List.length pl) by lia.
    rewrite firstn_app, firstn_all, Nat.sub_diag. cbn [firstn].
    now rewrite app_nil_r.
  - assert (Hs : skipn k (buf ++ more) = skipn k (hd ++ pl ++ rest))
      by now rewrite He.
    rewrite skipn_app in Hs.
    replace (k - List.length buf)%nat with 0%nat in Hs by lia.
    cbn [skipn] in Hs. rewrite Hs.
    rewrite app_assoc, skipn_app.
    replace (k - List.length (hd ++ pl))%nat with 0%nat
      by (rewrite length_app; lia).
    cbn [skipn]. rewrite skipn_all2 by (rewrite length_app; lia).
    reflexivity.
Qed.

Lemma concat_bytewise (bs : bytes) : List.concat (bytewise bs) = bs.
Proof.
  unfold bytewise.
  induction bs as [|b bs IH]; cbn [map List.concat app];
    [reflexivity | now rewrite IH].
Qed.

(** ** Return paths of [get_data] *)

Lemma transpose_nil (c : nat) : transpose c [] = repeat [] c.
Proof.
  unfold transpose. cbn [map]. generalize 0%nat.
  induction c as [|c IH]; intros k; cbn [seq map repeat];
    [reflexivity | now rewrite IH].
Qed.

(** C9: for every channel list, a request for 0 data points returns an
    empty array (flat for one channel, otherwise one empty row per
    channel) and leaves the socket as it was: [recv] is never called. *)
Theorem get_data_zero_points
        (itemsize fuel : nat) (channels : list Z) (s : socket) :
  get_data itemsize fuel 0 channels s
  = Some (inr (if (List.length channels =? 1)%nat then Array1 []
               else Array2 (repeat [] (List.length channels))), s).
Proof.
  unfold get_data, get_data_run.
  change (0 <? 0) with false. change (Z.to_nat 0) with 0%nat.
  destruct fuel; cbn [get_data_loop initial received_data_points Nat.ltb
                        Nat.leb returned final_state data sock np_zeros repeat];
    rewrite transpose_nil;
    destruct (List.length channels) as [|[|k]]; reflexivity.
Qed.

(** C8 fails on the timeout path.  With one channel requested and nothing
    arriving, [get_data] returns the two-dimensional array [[0]] (one row
    of length 1 per data point), where the path through the end of the loop
    returns a flat array: three data points of channel 1 of the packet
    [header_2ch_3x8 ++ payload_3x8] come back as [20; 21; 22]. *)
Theorem get_data_one_channel_timeout_not_flat
        (itemsize fuel : nat) (c : Z) :
  get_data itemsize (S fuel) 1 [c] [] = Some (inr (Array2 [[0]]), [])
  /\ get_data 4 (S (S fuel)) 3 [1] [Recv (header_2ch_3x8 ++ payload_3x8)]
     = Some (inr (Array1 [20; 21; 22]), []).
Proof. split; reflexivity. Qed.

(** ** The reassembly loop *)

Section Loop.

Variables itemsize data_points : nat.
Variable channels : list Z.

Local Abbreviation loop := (get_data_loop itemsize data_points channels).
Local Abbreviation frames := (frames_loop itemsize data_points channels).

(** One unfolding of the loop, fuel permitting. *)
Lemma loop_exit (fuel : nat) (st : state) :
  (data_points <= received_data_points st)%nat ->
  loop fuel st = Some (LoopDone st).
Proof.
  intros H. apply Nat.ltb_ge in H. destruct fuel; cbn [get_data_loop];
    now rewrite H.
Qed.

(** The frame loop raises nothing but the two numpy errors. *)
Lemma frames_error payload bpf range :
  forall data received e,
    frames payload bpf range data received = inl e ->
    e = ValueError \/ e = IndexError.
Proof.
  induction range as [|i range IH]; intros data received e;
    cbn [frames_loop]; [discriminate|].
  destruct (received <? data_points)%nat; [|discriminate].
  destruct (frombuffer _ _); [|intros [= <-]; now left].
  destruct (take _ _); [|intros [= <-]; now right].
  destruct (set_row _ _ _); [|intros [= <-]; now right].
  apply IH.
Qed.

(** Frames are taken until the requested count is reached or the packet
    is used up, whichever comes first. *)
Lemma frames_count payload bpf range :
  forall data received data' received',
    frames payload bpf range data received = inr (data', received') ->
    (received <= data_points)%nat ->
    received' = Nat.min data_points (received + List.length range).
Proof.
  induction range as [|i range IH]; intros data received data' received';
    cbn [frames_loop List.length].
  - intros [= <- <-] H. lia.
  - destruct (received <? data_points)%nat eqn:E.
    + apply Nat.ltb_lt in E.
      destruct (frombuffer _ _); [|discriminate].
      destruct (take _ _); [|discriminate].
      destruct (set_row _ _ _); [|discriminate].
      intros H _. apply IH in H; lia.
    + apply Nat.ltb_ge in E. intros [= <- <-] H. lia.
Qed.

(** Once the count is reached the rest of the range is not looked at. *)
Lemma frames_truncate payload bpf (done rest : list nat) :
  forall data received,
    (data_points <= received + List.length done)%nat ->
    frames payload bpf (done ++ rest) data received
    = frames payload bpf done data received.
Proof.
  induction done as [|i done IH]; intros data received H;
    cbn [app frames_loop List.length] in *.
  - assert (E : (received <? data_points)%nat = false)
      by (apply Nat.ltb_ge; lia).
    destruct rest; cbn [frames_loop]; [reflexivity | now rewrite E].
  - destruct (received <? data_points)%nat; [|reflexivity].
    destruct (frombuffer _ _); [|reflexivity].
    destruct (take _ _); [|reflexivity].
    destruct (set_row _ _ _); [|reflexivity].
    apply IH. lia.
Qed.

(** C4: in any iteration of the loop, once 32 bytes are buffered the
    header is decoded, and if [max(channels)] is not below the channel
    count of that header the device error is raised at once: the buffer
    is the one the header was decoded from, with nothing removed, and the
    socket is where the header wait left it (no read for the payload). *)
Theorem channel_check_before_payload
        (fuel : nat) (st : state) (buf : bytes) (s : socket) (m : Z) :
  (received_data_points st < data_points)%nat ->
  await 32 (data_stream st) (sock st) = Filled buf s ->
  py_max channels = Some m ->
  exists h,
    inspect_header buf = Some h
    /\ (nr_of_channels h <= m ->
        loop (S fuel) st
        = Some (Raised (DeviceError (OnlyChannels (nr_of_channels h)))
                       {| data_stream := buf; data := data st;
                          received_data_points := received_data_points st;
                          sock := s |})
        /\ (32 <= List.length buf)%nat
        /\ inspect_header (firstn 32 buf) = Some h).
Proof.
  intros Hlt Hw Hm.
  destruct (await_filled _ _ _ _ _ Hw) as [Hlen _].
  assert (H32 : (32 <= List.length buf)%nat) by lia.
  rewrite (inspect_header_fields buf H32). eexists. split; [reflexivity|].
  cbn [nr_of_channels payload_size]. intros Hch. split; [|split].
  - cbn [get_data_loop]. apply Nat.ltb_lt in Hlt. rewrite Hlt, Hw.
    rewrite (inspect_header_fields buf H32), Hm.
    cbn [nr_of_channels].
    destruct (m + 1 >? ones (le_signed (slice buf 12 20))) eqn:E;
      [reflexivity|].
    rewrite Z.gtb_ltb in E. apply Z.ltb_ge in E. lia.
  - exact H32.
  - rewrite <- (inspect_header_fields buf H32).
    rewrite <- (firstn_skipn 32 buf) at 2.
    symmetry. apply inspect_header_app. rewrite length_firstn. lia.
Qed.

(** Where the two kinds of timeout outcome come from, over a whole run:
    a return on timeout has fewer than 32 bytes buffered; a propagated
    timeout has a decodable header buffered and less than its payload. *)
Lemma loop_timeout_outcomes (fuel : nat) :
  forall st o,
    loop fuel st = Some o ->
    match o with
    | NoData st' => Z.of_nat (List.length (data_stream st')) < 32
    | Raised SocketTimeout st' =>
        exists h, inspect_header (data_stream st') = Some h
                  /\ 32 <= Z.of_nat (List.length (data_stream st'))
                     < 32 + payload_size h
    | _ => True
    end.
Proof.
  induction fuel as [|fuel IH]; intros st o; cbn [get_data_loop];
    destruct (received_data_points st <? data_points)%nat;
    try discriminate; try (intros [= <-]; exact I).
  destruct (await 32 (data_stream st) (sock st)) as [buf s|buf s] eqn:Hw.
  - destruct (await_filled _ _ _ _ _ Hw) as [Hlen _].
    destruct (inspect_header buf) as [h|] eqn:Hh;
      [|intros [= <-]; exact I].
    destruct (py_max channels) as [m|]; [|intros [= <-]; exact I].
    destruct (m + 1 >? nr_of_channels h); [intros [= <-]; exact I|].
    destruct (await (32 + payload_size h) buf s) as [buf' s'|buf' s']
      eqn:Hp.
    + destruct (frames _ _ _ _ _) as [e|[data' received']] eqn:Hf.
      * intros [= <-].
        destruct (frames_error _ _ _ _ _ _ Hf) as [-> | ->]; exact I.
      * apply IH.
    + intros [= <-]. cbn [data_stream].
      destruct (await_timed_out _ _ _ _ _ Hp) as [Hshort [extra ->]].
      exists h. split; [|split; [|exact Hshort]].
      * rewrite inspect_header_app by lia. exact Hh.
      * rewrite length_app. lia.
  - intros [= <-]. cbn [data_stream].
    apply (await_timed_out _ _ _ _ _ Hw).
Qed.

(** C5: in any iteration of the loop, a timeout while fewer than 32 bytes
    are buffered ends the call normally, returning the array of data
    points as filled so far; a timeout while the payload of a decoded
    header is awaited leaves the call as the propagated [socket.timeout].
    Conversely, whenever the loop ends in a return on timeout fewer than
    32 bytes are buffered, and whenever it ends in a propagated timeout a
    header has been decoded and its payload is incomplete. *)
Theorem timeout_returns_before_header_raises_after
        (fuel : nat) (st : state) :
  (received_data_points st < data_points)%nat ->
  (forall buf s,
      await 32 (data_stream st) (sock st) = TimedOut buf s ->
      let st' := {| data_stream := buf; data := data st;
                    received_data_points := received_data_points st;
                    sock := s |} in
      Z.of_nat (List.length buf) < 32
      /\ loop (S fuel) st = Some (NoData st')
      /\ returned channels (NoData st') = inr (Array2 (data st)))
  /\ (forall buf s h m buf' s',
        await 32 (data_stream st) (sock st) = Filled buf s ->
        inspect_header buf = Some h ->
        py_max channels = Some m ->
        m < nr_of_channels h ->
        await (32 + payload_size h) buf s = TimedOut buf' s' ->
        let st' := {| data_stream := buf'; data := data st;
                      received_data_points := received_data_points st;
                      sock := s' |} in
        Z.of_nat (List.length buf') < 32 + payload_size h
        /\ loop (S fuel) st = Some (Raised SocketTimeout st')
        /\ returned channels (Raised SocketTimeout st') = inl SocketTimeout)
  /\ (forall o,
        loop (S fuel) st = Some o ->
        (forall st', o = NoData st' ->
                     Z.of_nat (List.length (data_stream st')) < 32)
        /\ (forall st', o = Raised SocketTimeout st' ->
               exists h, inspect_header (data_stream st') = Some h
                         /\ 32 <= Z.of_nat (List.length (data_stream st'))
                            < 32 + payload_size h)).
Proof.
  intros Hlt. apply Nat.ltb_lt in Hlt. split; [|split].
  - intros buf s Hw st'. split; [|split].
    + apply (await_timed_out _ _ _ _ _ Hw).
    + cbn [get_data_loop]. now rewrite Hlt, Hw.
    + reflexivity.
  - intros buf s h m buf' s' Hw Hh Hm Hch Hp st'. split; [|split].
    + apply (await_timed_out _ _ _ _ _ Hp).
    + cbn [get_data_loop]. rewrite Hlt, Hw, Hh, Hm.
      destruct (m + 1 >? nr_of_channels h) eqn:E.
      * rewrite Z.gtb_ltb in E. apply Z.ltb_lt in E. lia.
      * now rewrite Hp.
    + reflexivity.
  - intros o Ho. pose proof (loop_timeout_outcomes _ _ _ Ho) as H.
    split; intros st' ->; exact H.
Qed.

(** A normal end of the loop has the requested count. *)
Lemma loop_done_count (fuel : nat) :
  forall st st',
    loop fuel st = Some (LoopDone st') ->
    (received_data_points st <= data_points)%nat ->
    received_data_points st' = data_points.
Proof.
  induction fuel as [|fuel IH]; intros st st'; cbn [get_data_loop];
    destruct (received_data_points st <? data_points)%nat eqn:E;
    try discriminate;
    try (intros [= <-] H; apply Nat.ltb_ge in E; lia).
  destruct (await 32 _ _) as [buf s|buf s]; [|discriminate].
  destruct (inspect_header buf) as [h|]; [|discriminate].
  destruct (py_max channels) as [m|]; [|discriminate].
  destruct (m + 1 >? nr_of_channels h); [discriminate|].
  destruct (await (32 + payload_size h) buf s) as [buf' s'|buf' s'];
    [|discriminate].
  destruct (frames _ _ _ _ _) as [e|[data' received']] eqn:Hf;
    [discriminate|].
  intros H Hle. apply (IH _ _ H). cbn [received_data_points].
  rewrite (frames_count _ _ _ _ _ _ _ Hf Hle). lia.
Qed.

(** C7: in any iteration of the loop that has a whole packet buffered and
    decodes its frames, the next iteration starts from the buffer with
    the whole packet (32 bytes and the payload) removed, whether or not
    all of its frames were used.  If the requested count is reached
    within the packet, the frames past it are not looked at and the loop
    ends with that buffer; if the packet has fewer frames than are still
    missing, all of them are taken and the loop goes on with the bytes
    after the packet, and it can only end normally with the requested
    count.  Every call starts from an empty buffer of its own. *)
Theorem packet_dropped_whole
        (fuel : nat) (st : state) (buf buf' : bytes) (s s' : socket)
        (h : header_info) (m : Z) (data' : list (list Z))
        (received' : nat) :
  (received_data_points st < data_points)%nat ->
  await 32 (data_stream st) (sock st) = Filled buf s ->
  inspect_header buf = Some h ->
  py_max channels = Some m ->
  m < nr_of_channels h ->
  await (32 + payload_size h) buf s = Filled buf' s' ->
  frames (slice buf' 32 (32 + payload_size h)) (bytes_per_frame h)
         (seq 0 (Z.to_nat (nr_of_frames h)))
         (data st) (received_data_points st) = inr (data', received') ->
  let st' := {| data_stream := slice_from buf' (32 + payload_size h);
                data := data'; received_data_points := received';
                sock := s' |} in
  let missing := (data_points - received_data_points st)%nat in
  loop (S fuel) st = loop fuel st'
  /\ (0 <= payload_size h ->
      data_stream st' = skipn (32 + Z.to_nat (payload_size h)) buf')
  /\ (missing <= Z.to_nat (nr_of_frames h) ->
      received' = data_points
      /\ frames (slice buf' 32 (32 + payload_size h)) (bytes_per_frame h)
                (seq 0 missing) (data st) (received_data_points st)
         = inr (data', received')
      /\ loop (S fuel) st = Some (LoopDone st'))%nat
  /\ (Z.to_nat (nr_of_frames h) < missing ->
      received'
      = received_data_points st + Z.to_nat (nr_of_frames h)
      /\ received' < data_points
      /\ forall st'', loop fuel st' = Some (LoopDone st'') ->
                      received_data_points st'' = data_points)%nat
  /\ (forall n' channels' s'',
        data_stream (initial n' channels' s'') = []).
Proof.
  intros Hlt Hw Hh Hm Hch Hp Hf st' missing.
  assert (Hstep : loop (S fuel) st = loop fuel st').
  { cbn [get_data_loop]. apply Nat.ltb_lt in Hlt.
    rewrite Hlt, Hw, Hh, Hm.
    destruct (m + 1 >? nr_of_channels h) eqn:E.
    - rewrite Z.gtb_ltb in E. apply Z.ltb_lt in E. lia.
    - now rewrite Hp, Hf. }
  pose proof (frames_count _ _ _ _ _ _ _ Hf ltac:(lia)) as Hcount.
  rewrite length_seq in Hcount.
  split; [exact Hstep|]. split; [|split; [|split]].
  - intros Hps. subst st'. cbn [data_stream]. unfold slice_from.
    rewrite slice_bound_nonneg by lia.
    destruct (await_filled _ _ _ _ _ Hp) as [Hlen _].
    rewrite Nat.min_l by lia. f_equal. lia.
  - intros Hm'. assert (Hr : received' = data_points) by lia.
    split; [exact Hr|]. split.
    + rewrite <- Hf.
      replace (Z.to_nat (nr_of_frames h))
        with (missing + (Z.to_nat (nr_of_frames h) - missing))%nat by lia.
      rewrite seq_app. symmetry. apply frames_truncate.
      rewrite length_seq. lia.
    + rewrite Hstep. apply loop_exit. subst st'.
      cbn [received_data_points]. lia.
  - intros Hm'. split; [lia|]. split; [lia|].
    intros st'' Hdone. apply (loop_done_count _ _ _ Hdone).
    subst st'. cbn [received_data_points]. lia.
  - reflexivity.
Qed.

Lemma wire_cons (hd pl : bytes) (rest : list packet) :
  wire ((hd, pl) :: rest) = (hd ++ pl ++ wire rest)%list.
Proof.
  unfold wire. cbn [flat_map fst snd]. now rewrite <- app_assoc.
Qed.

Lemma well_formed_cons (hd pl : bytes) (rest : list packet) :
  forallb well_formed ((hd, pl) :: rest) = true ->
  List.length hd = 32%nat
  /\ (exists h, inspect_header hd = Some h
                /\ payload_size h = Z.of_nat (List.length pl))
  /\ forallb well_formed rest = true.
Proof.
  cbn [forallb]. intros H. apply andb_true_iff in H. destruct H as [H Hr].
  unfold well_formed in H. cbn [fst snd] in H.
  apply andb_true_iff in H. destruct H as [Hl Hh].
  apply Nat.eqb_eq in Hl. split; [exact Hl|]. split; [|exact Hr].
  destruct (inspect_header hd) as [h|]; [|discriminate].
  exists h. split; [reflexivity|]. now apply Z.eqb_eq.
Qed.

(** The loop on a sequence of whole packets: however the bytes are cut
    into chunks, and whatever part of them is already buffered, the call
    ends as it does with all the bytes buffered from the start. *)
Lemma loop_chunking (fuel : nat) :
  forall pkts buf chunks rows received,
    forallb well_formed pkts = true ->
    (buf ++ List.concat chunks)%list = wire pkts ->
    option_map (returned channels)
      (loop fuel {| data_stream := buf; data := rows;
                    received_data_points := received;
                    sock := deliver chunks |})
    = option_map (returned channels)
        (loop fuel {| data_stream := wire pkts; data := rows;
                      received_data_points := received; sock := [] |}).
Proof.
  induction fuel as [|fuel IH]; intros pkts buf chunks rows received Hwf He;
    cbn [get_data_loop received_data_points data_stream sock data];
    destruct (received <? data_points)%nat; try reflexivity.
  destruct pkts as [|[hd pl] rest].
  - cbn [wire flat_map] in *.
    rewrite await_deliver_short by (rewrite He; cbn [List.length]; lia).
    reflexivity.
  - destruct (well_formed_cons _ _ _ Hwf) as (Hhd & (h & Hh & Hps) & Hrest).
    rewrite wire_cons in *.
    set (W := (hd ++ pl ++ wire rest)%list) in *.
    assert (HW : 32 + Z.of_nat (List.length pl)
                 <= Z.of_nat (List.length W)).
    { subst W. rewrite !length_app. lia. }
    destruct (await_deliver_enough 32 chunks buf)
      as (b1 & c1 & Hw1 & He1 & Ht1); [rewrite He; lia|].
    rewrite Hw1, (await_enough 32 W []) by lia.
    assert (HhW : inspect_header W = Some h).
    { subst W. rewrite inspect_header_app by lia. exact Hh. }
    assert (Hh1 : inspect_header b1 = Some h).
    { rewrite <- (inspect_header_app b1 (List.concat c1)) by lia.
      now rewrite He1, He. }
    rewrite Hh1, HhW.
    destruct (py_max channels) as [m|]; [|reflexivity].
    destruct (m + 1 >? nr_of_channels h); [reflexivity|].
    rewrite Hps.
    destruct (await_deliver_enough (32 + Z.of_nat (List.length pl)) c1 b1)
      as (b2 & c2 & Hw2 & He2 & Ht2); [rewrite He1, He; lia|].
    rewrite Hw2, (await_enough _ W []) by lia.
    destruct (buffered_packet b2 (List.concat c2) hd pl (wire rest))
      as [Hpl2 Hrest2]; [now rewrite He2, He1, He | exact Hhd | exact Ht2 |].
    destruct (buffered_packet W [] hd pl (wire rest))
      as [HplW HrestW]; [now rewrite app_nil_r | exact Hhd | exact HW |].
    rewrite app_nil_r in HrestW.
    rewrite Hpl2, HplW, HrestW.
    destruct (frames pl (bytes_per_frame h)
                     (seq 0 (Z.to_nat (nr_of_frames h))) rows received)
      as [e|[data' received']]; [reflexivity|].
    apply IH; assumption.
Qed.

(** On whole packets the loop needs one round per packet and one more. *)
Lemma loop_packets_end (pkts : list packet) :
  forall fuel rows received,
    forallb well_formed pkts = true ->
    (List.length pkts < fuel)%nat ->
    loop fuel {| data_stream := wire pkts; data := rows;
                 received_data_points := received; sock := [] |} <> None.
Proof.
  induction pkts as [|[hd pl] rest IH]; intros fuel rows received Hwf Hfuel;
    (destruct fuel as [|fuel]; [cbn [List.length] in Hfuel; lia|]);
    cbn [get_data_loop received_data_points data_stream sock data];
    destruct (received <? data_points)%nat; try discriminate.
  destruct (well_formed_cons _ _ _ Hwf) as (Hhd & (h & Hh & Hps) & Hrest).
  rewrite wire_cons.
  set (W := (hd ++ pl ++ wire rest)%list) in *.
  assert (HW : 32 + Z.of_nat (List.length pl)
               <= Z.of_nat (List.length W)).
  { subst W. rewrite !length_app. lia. }
  rewrite (await_enough 32 W []) by lia.
  assert (HhW : inspect_header W = Some h).
  { subst W. rewrite inspect_header_app by lia. exact Hh. }
  rewrite HhW.
  destruct (py_max channels) as [m|]; [|discriminate].
  destruct (m + 1 >? nr_of_channels h); [discriminate|].
  rewrite Hps, (await_enough _ W []) by lia.
  destruct (buffered_packet W [] hd pl (wire rest))
    as [HplW HrestW]; [now rewrite app_nil_r | exact Hhd | exact HW |].
  rewrite app_nil_r in HrestW. rewrite HplW, HrestW.
  destruct (frames pl (bytes_per_frame h)
                   (seq 0 (Z.to_nat (nr_of_frames h))) rows received)
    as [e|[data' received']]; [discriminate|].
  apply IH; [exact Hrest | cbn [List.length] in Hfuel; lia].
Qed.

(** A run that ends is not changed by more fuel. *)
Lemma loop_more_fuel (fuel : nat) :
  forall st o fuel',
    loop fuel st = Some o -> (fuel <= fuel')%nat -> loop fuel' st = Some o.
Proof.
  induction fuel as [|fuel IH]; intros st o fuel';
    (destruct fuel' as [|fuel']; [|]); cbn [get_data_loop];
    destruct (received_data_points st <? data_points)%nat;
    try discriminate; try (intros; assumption); try lia.
  destruct (await 32 _ _) as [buf s|buf s]; [|auto].
  destruct (inspect_header buf) as [h|]; [|auto].
  destruct (py_max channels) as [m|]; [|auto].
  destruct (m + 1 >? nr_of_channels h); [auto|].
  destruct (await (32 + payload_size h) buf s) as [buf' s'|buf' s'];
    [|auto].
  destruct (frames _ _ _ _ _) as [e|[data' received']]; [auto|].
  intros H Hle. apply (IH _ _ _ H). lia.
Qed.

End Loop.

(** ** Whole calls *)

Lemma get_data_returned (itemsize fuel : nat) (data_points : Z)
      (channels : list Z) (s : socket) :
  option_map fst (get_data itemsize fuel data_points channels s)
  = option_map (returned channels)
      (get_data_run itemsize fuel data_points channels s).
Proof.
  unfold get_data.
  destruct (get_data_run itemsize fuel data_points channels s); reflexivity.
Qed.

(** C3: for every sequence of whole packets (32-byte header and the payload
    it announces) and every request, [get_data] ends, and what it returns
    or raises is the same whether the bytes arrive one per call to [recv],
    all in one chunk, or cut into chunks in any other way. *)
Theorem chunk_boundaries_irrelevant
        (itemsize : nat) (data_points : Z) (channels : list Z)
        (pkts : list packet) :
  forallb well_formed pkts = true ->
  exists result,
    forall fuel,
      (List.length pkts < fuel)%nat ->
      option_map fst (get_data itemsize fuel data_points channels
                               (deliver (bytewise (wire pkts))))
      = Some result
      /\ option_map fst (get_data itemsize fuel data_points channels
                                  (deliver [wire pkts]))
         = Some result
      /\ forall chunks,
           List.concat chunks = wire pkts ->
           option_map fst (get_data itemsize fuel data_points channels
                                    (deliver chunks))
           = Some result.
Proof.
  intros Hwf.
  assert (Hall : exists result, forall fuel chunks,
             (List.length pkts < fuel)%nat ->
             List.concat chunks = wire pkts ->
             option_map fst (get_data itemsize fuel data_points channels
                                      (deliver chunks))
             = Some result).
  { destruct (data_points <? 0) eqn:Hneg.
    - exists (inl ValueError). intros fuel chunks _ _.
      rewrite get_data_returned. unfold get_data_run. now rewrite Hneg.
    - set (n := Z.to_nat data_points).
      set (start := {| data_stream := wire pkts;
                       data := np_zeros n (List.length channels);
                       received_data_points := 0; sock := [] |}).
      destruct (get_data_loop itemsize n channels (S (List.length pkts)) start)
        as [o|] eqn:Ho.
      + exists (returned channels o). intros fuel chunks Hfuel Hc.
        rewrite get_data_returned. unfold get_data_run. rewrite Hneg.
        fold n. unfold initial.
        rewrite (loop_chunking itemsize n channels fuel pkts [] chunks)
          by assumption.
        fold start.
        rewrite (loop_more_fuel _ _ _ _ _ _ fuel Ho) by lia. reflexivity.
      + exfalso. revert Ho. apply loop_packets_end; [exact Hwf | lia]. }
  destruct Hall as [result Hall]. exists result. intros fuel Hfuel.
  split; [|split].
  - apply Hall; [exact Hfuel | apply concat_bytewise].
  - apply Hall; [exact Hfuel | cbn [List.concat]; apply app_nil_r].
  - intros chunks Hc. now apply Hall.
Qed.

Lemma chunk_boundaries_irrelevant_witness :
  exists result,
    option_map fst
      (get_data 4 2 2 [0; 1]
         (deliver (bytewise (header_2ch_3x8 ++ payload_3x8))))
    = Some result
    /\ option_map fst
         (get_data 4 2 2 [0; 1] (deliver [header_2ch_3x8 ++ payload_3x8]))
       = Some result.
Proof.
  destruct (chunk_boundaries_irrelevant 4 2 [0; 1]
              [(header_2ch_3x8, payload_3x8)]) as [result H];
    [reflexivity|].
  exists result. destruct (H 2%nat) as (H1 & H2 & _); [cbn; lia|].
  split; [exact H1 | exact H2].
Defined.

(** C1, as stated, fails.  On the packet [header_2ch_3x8 ++ payload_3x8],
    whose header decodes as 2 channels, 3 frames, 8 bytes per frame, a
    request for 2 data points on channels [0; 1] returns the transposed
    array, one row per channel, not the rows (10,20), (11,21); and where
    [np.dtype(int)] has 8 bytes a frame of 8 bytes holds one item only, so
    that channel 1 raises [IndexError]. *)
Lemma get_data_returns_channel_rows :
  inspect_header header_2ch_3x8
  = Some {| nr_of_channels := 2; nr_of_frames := 3;
            bytes_per_frame := 8; payload_size := 24 |}
  /\ get_data 4 1 2 [0; 1] [Recv (header_2ch_3x8 ++ payload_3x8)]
     = Some (inr (Array2 [[10; 11]; [20; 21]]), [])
  /\ get_data 4 1 2 [0; 1] [Recv (header_2ch_3x8 ++ payload_3x8)]
     <> Some (inr (Array2 [[10; 20]; [11; 21]]), [])
  /\ get_data 8 1 2 [0; 1] [Recv (header_2ch_3x8 ++ payload_3x8)]
     = Some (inl IndexError, []).
Proof.
  split; [reflexivity|]. split; [reflexivity|]. split; [|reflexivity].
  vm_compute. intros H. discriminate H.
Qed.

(** C1 (amended): with 4-byte integers, if the socket delivers in one chunk
    a packet whose header decodes as 2 channels, 3 frames and 8 bytes per
    frame, with the payload [payload_3x8] (the little-endian int32 pairs
    (10,20), (11,21), (12,22)), followed by any further bytes, then a
    request for 2 data points on channels [0; 1] fills the rows (10,20) and
    (11,21), returns them transposed, one row per channel, and leaves in
    the buffer only the bytes after the packet: all 32 + 24 bytes are
    dropped, the third frame included. *)
Theorem get_data_two_of_three_frames (hdr rest : bytes) (fuel : nat) :
  List.length hdr = 32%nat ->
  inspect_header hdr
  = Some {| nr_of_channels := 2; nr_of_frames := 3;
            bytes_per_frame := 8; payload_size := 24 |} ->
  get_data_run 4 (S fuel) 2 [0; 1] [Recv (hdr ++ payload_3x8 ++ rest)]
  = Some (LoopDone {| data_stream := rest;
                      data := [[10; 20]; [11; 21]];
                      received_data_points := 2;
                      sock := [] |})
  /\ get_data 4 (S fuel) 2 [0; 1] [Recv (hdr ++ payload_3x8 ++ rest)]
     = Some (inr (Array2 [[10; 11]; [20; 21]]), []).
Proof.
  intros Hlen Hh.
  set (X := (hdr ++ payload_3x8 ++ rest)%list).
  assert (HX : 32 + Z.of_nat (List.length payload_3x8)
               <= Z.of_nat (List.length X)).
  { subst X. rewrite !length_app. lia. }
  assert (Hrun : get_data_run 4 (S fuel) 2 [0; 1] [Recv X]
                 = Some (LoopDone {| data_stream := rest;
                                     data := [[10; 20]; [11; 21]];
                                     received_data_points := 2;
                                     sock := [] |})).
  { unfold get_data_run. change (2 <? 0) with false.
    change (Z.to_nat 2) with 2%nat. unfold initial.
    cbn [get_data_loop received_data_points data_stream sock data].
    change (0 <? 2)%nat with true.
    assert (Hw : await 32 [] [Recv X] = Filled X []).
    { change (await 32 [] [Recv X]) with (await 32 X []).
      apply await_enough. lia. }
    rewrite Hw.
    assert (HhX : inspect_header X = inspect_header hdr)
      by (subst X; apply inspect_header_app; lia).
    rewrite HhX, Hh. cbn [py_max fold_left nr_of_channels payload_size
                            bytes_per_frame nr_of_frames].
    change (Z.max 0 1 + 1 >? 2) with false.
    rewrite (await_enough (32 + 24) X []) by exact HX.
    destruct (buffered_packet X [] hdr payload_3x8 rest)
      as [Hpl Hrest]; [now rewrite app_nil_r | exact Hlen | exact HX |].
    rewrite app_nil_r in Hrest.
    change (Z.of_nat (List.length payload_3x8)) with 24 in Hpl, Hrest.
    rewrite Hpl, Hrest.
    change (frames_loop 4 2 [0; 1] payload_3x8 8 (seq 0 (Z.to_nat 3))
                        (np_zeros 2 (List.length [0; 1])) 0)
      with (@inr exn _ ([[10; 20]; [11; 21]], 2%nat)).
    cbv beta iota. apply loop_exit. cbn [received_data_points]. lia. }
  split; [exact Hrun|]. unfold get_data. rewrite Hrun. reflexivity.
Qed.

Lemma get_data_two_of_three_frames_witness :
  get_data 4 1 2 [0; 1] [Recv (header_2ch_3x8 ++ payload_3x8 ++ [])]
  = Some (inr (Array2 [[10; 11]; [20; 21]]), []).
Proof.
  apply (get_data_two_of_three_frames header_2ch_3x8 [] 0); reflexivity.
Defined.

Lemma channel_check_before_payload_witness :
  get_data_loop 4 2 [2] 1
    (initial 2 [2] [Recv (header_2ch_3x8 ++ payload_3x8)])
  = Some (Raised (DeviceError (OnlyChannels 2))
                 {| data_stream := header_2ch_3x8 ++ payload_3x8;
                    data := [[0]; [0]];
                    received_data_points := 0;
                    sock := [] |}).
Proof.
  destruct (channel_check_before_payload 4 2 [2] 0
              (initial 2 [2] [Recv (header_2ch_3x8 ++ payload_3x8)])
              (header_2ch_3x8 ++ payload_3x8) [] 2)
    as (h & Hh & H);
    [cbn; lia | reflexivity | reflexivity |].
  vm_compute in Hh. injection Hh as <-.
  destruct H as [H _]; [cbn; lia | exact H].
Defined.

Lemma timeout_returns_before_header_raises_after_witness :
  get_data_loop 4 1 [0] 1 (initial 1 [0] [Recv [x4d; x45]%byte])
  = Some (NoData {| data_stream := [x4d; x45]%byte; data := [[0]];
                    received_data_points := 0; sock := [] |})
  /\ get_data_loop 4 2 [0; 1] 1 (initial 2 [0; 1] [Recv header_2ch_3x8])
     = Some (Raised SocketTimeout
                    {| data_stream := header_2ch_3x8;
                       data := [[0; 0]; [0; 0]];
                       received_data_points := 0; sock := [] |}).
Proof.
  split.
  - destruct (timeout_returns_before_header_raises_after 4 1 [0] 0
                (initial 1 [0] [Recv [x4d; x45]%byte]))
      as (Hheader & _ & _); [cbn; lia|].
    destruct (Hheader [x4d; x45]%byte []) as (_ & Hloop & _);
      [reflexivity | exact Hloop].
  - destruct (timeout_returns_before_header_raises_after 4 2 [0; 1] 0
                (initial 2 [0; 1] [Recv header_2ch_3x8]))
      as (_ & Hpayload & _); [cbn; lia|].
    destruct (Hpayload header_2ch_3x8 []
                {| nr_of_channels := 2; nr_of_frames := 3;
                   bytes_per_frame := 8; payload_size := 24 |}
                1 header_2ch_3x8 [])
      as (_ & Hloop & _);
      [reflexivity | reflexivity | reflexivity | cbn; lia | reflexivity
      | exact Hloop].
Defined.

Lemma packet_dropped_whole_witness :
  get_data_loop 4 2 [0; 1] 1
    (initial 2 [0; 1] [Recv (header_2ch_3x8 ++ payload_3x8)])
  = Some (LoopDone {| data_stream := [];
                      data := [[10; 20]; [11; 21]];
                      received_data_points := 2; sock := [] |}).
Proof.
  destruct (packet_dropped_whole 4 2 [0; 1] 0
              (initial 2 [0; 1] [Recv (header_2ch_3x8 ++ payload_3x8)])
              (header_2ch_3x8 ++ payload_3x8)
              (header_2ch_3x8 ++ payload_3x8) [] []
              {| nr_of_channels := 2; nr_of_frames := 3;
                 bytes_per_frame := 8; payload_size := 24 |}
              1 [[10; 20]; [11; 21]] 2)
    as (_ & _ & Hreached & _);
    [cbn; lia | reflexivity | reflexivity | reflexivity | cbn; lia
    | reflexivity | reflexivity |].
  destruct Hreached as (_ & _ & Hdone); [cbn; lia | exact Hdone].
Defined.

(** ** Worked runs *)

(** Four data points over two packets of three frames each: the second
    packet supplies one row and is dropped whole. *)
Example get_data_spans_two_packets :
  get_data 4 3 4 [0; 1]
    [Recv (header_2ch_3x8 ++ payload_3x8 ++ header_2ch_3x8 ++ payload_3x8)]
  = Some (inr (Array2 [[10; 11; 12; 10]; [20; 21; 22; 20]]), []).
Proof. reflexivity. Qed.

(** The same bytes one at a time, and a request the two packets cannot
    fill: the call returns on the timeout with the rows collected and
    zeros after them, untransposed. *)
Example get_data_short_of_data :
  get_data 4 4 7 [1]
    (deliver (bytewise (header_2ch_3x8 ++ payload_3x8
                        ++ header_2ch_3x8 ++ payload_3x8)))
  = Some (inr (Array2 [[20]; [21]; [22]; [20]; [21]; [22]; [0]]), []).
Proof. reflexivity. Qed.

(** A header with 3 at offset 24 and 8 at offset 26 is read as 8 frames of
    3 bytes, and the first frame cannot be decoded. *)
Example inspect_header_offsets :
  inspect_header header_3_8
  = Some {| nr_of_channels := 2; nr_of_frames := 8;
            bytes_per_frame := 3; payload_size := 24 |}
  /\ get_data 4 1 2 [0; 1] [Recv (header_3_8 ++ payload_3x8)]
     = Some (inl ValueError, []).
Proof. split; reflexivity. Qed.

(** * Further properties *)

(** ** More on the header decoder *)

(** A decoded header was read from at least 32 bytes. *)
Lemma inspect_header_some_length (data_stream : bytes) (h : header_info) :
  inspect_header data_stream = Some h ->
  (32 <= List.length data_stream)%nat.
Proof.
  intros Hh.
  destruct (Nat.lt_ge_cases (List.length data_stream) 32) as [H|H];
    [|exact H].
  revert Hh. unfold inspect_header, slice.
  rewrite !slice_bound_nonneg by lia.
  change (Z.to_nat 0) with 0%nat. change (Z.to_nat 32) with 32%nat.
  rewrite Nat.min_0_l, Nat.min_r by lia. cbn [skipn].
  rewrite Nat.sub_0_r, firstn_all. unfold struct_unpack.
  replace (List.length data_stream =? list_sum header_format)%nat
    with false; [discriminate|].
  symmetry. apply Nat.eqb_neq.
  change (list_sum header_format) with 32%nat. lia.
Qed.

(** X1: [inspect_header] fails (the [struct.error] of [struct.unpack])
    exactly on buffers of fewer than 32 bytes. *)
Theorem inspect_header_too_short (data_stream : bytes) :
  inspect_header data_stream = None
  <-> (List.length data_stream < 32)%nat.
Proof.
  split.
  - intros H. destruct (Nat.lt_ge_cases (List.length data_stream) 32)
      as [Hlt|Hge]; [exact Hlt|].
    rewrite (inspect_header_fields _ Hge) in H. discriminate H.
  - intros H. destruct (inspect_header data_stream) as [h|] eqn:Hh;
      [|reflexivity].
    apply inspect_header_some_length in Hh. lia.
Qed.

Lemma pos_ones_size (p : positive) : pos_ones p <= Z.pos (Pos.size p).
Proof.
  induction p as [q IH|q IH|]; cbn [pos_ones Pos.size]; lia.
Qed.

Lemma pos_ones_below (p : positive) (k : Z) :
  0 <= k -> Z.pos p < 2 ^ k -> pos_ones p <= k.
Proof.
  intros Hk Hp. pose proof (pos_ones_size p) as Hs.
  pose proof (Pos.size_le p) as Hle.
  assert (H2 : 2 ^ Z.pos (Pos.size p) <= 2 * Z.pos p).
  { change 2 with (Z.pos 2) at 1. rewrite <- Pos2Z.inj_pow.
    change (2 * Z.pos p) with (Z.pos p~0). apply Pos2Z.pos_le_pos, Hle. }
  assert (H3 : 2 ^ Z.pos (Pos.size p) < 2 ^ (k + 1)).
  { rewrite Z.pow_add_r by lia. change (2 ^ 1) with 2. lia. }
  apply Z.pow_lt_mono_r_iff in H3; lia.
Qed.

(** The bit count of a 64-bit two's complement value is at most 63: the
    pattern of 64 ones is -1, of magnitude 1. *)
Lemma ones_int64 (z : Z) : - 2 ^ 63 <= z < 2 ^ 63 -> 0 <= ones z <= 63.
Proof.
  intros H. split; [apply ones_nonneg|].
  destruct z as [|p|p]; cbn [ones]; [lia | apply pos_ones_below; lia |].
  destruct (Z.eq_dec (Z.pos p) (2 ^ 63)) as [E|E].
  - change (2 ^ 63) with (Z.pos (2 ^ 63)) in E. injection E as ->.
    vm_compute. discriminate.
  - apply pos_ones_below; lia.
Qed.

(** The signed reading of a slice inside the first 32 bytes is within the
    range of its width. *)
Lemma header_field_range (data_stream : bytes) (lo hi : nat) :
  (32 <= List.length data_stream)%nat ->
  (lo < hi <= 32)%nat ->
  - 2 ^ (8 * Z.of_nat (hi - lo) - 1)
  <= le_signed (slice data_stream (Z.of_nat lo) (Z.of_nat hi))
  < 2 ^ (8 * Z.of_nat (hi - lo) - 1).
Proof.
  intros Hlen Hb.
  set (bs := slice data_stream (Z.of_nat lo) (Z.of_nat hi)).
  assert (Hl : List.length bs = (hi - lo)%nat).
  { subst bs. rewrite slice_firstn_skipn by lia.
    rewrite length_firstn, length_skipn. lia. }
  rewrite <- Hl. apply le_signed_range. intros E. rewrite E in Hl.
  cbn [List.length] in Hl. lia.
Qed.

(** A decoded header has between 0 and 63 channels. *)
Lemma nr_of_channels_range (data_stream : bytes) (h : header_info) :
  inspect_header data_stream = Some h -> 0 <= nr_of_channels h <= 63.
Proof.
  intros Hh. pose proof (inspect_header_some_length _ _ Hh) as Hlen.
  rewrite (inspect_header_fields _ Hlen) in Hh. injection Hh as <-.
  cbn [nr_of_channels]. apply ones_int64.
  apply (header_field_range data_stream 12 20 Hlen). lia.
Qed.

(** X2: whatever the bytes, a decoded header has between 0 and 63
    channels, frame count and frame size in the signed 16-bit range, and a
    payload size between -32768 * 32767 and 2^30; so the reader never
    waits for more than 32 + 2^30 bytes. *)
Theorem inspect_header_bounds (data_stream : bytes) (h : header_info) :
  inspect_header data_stream = Some h ->
  0 <= nr_of_channels h <= 63
  /\ -32768 <= nr_of_frames h <= 32767
  /\ -32768 <= bytes_per_frame h <= 32767
  /\ -1073709056 <= payload_size h <= 1073741824.
Proof.
  intros Hh. split; [apply (nr_of_channels_range _ _ Hh)|].
  pose proof (inspect_header_some_length _ _ Hh) as Hlen.
  rewrite (inspect_header_fields _ Hlen) in Hh. injection Hh as <-.
  cbn [nr_of_frames bytes_per_frame payload_size].
  pose proof (header_field_range data_stream 24 26 Hlen ltac:(lia)) as Hb.
  pose proof (header_field_range data_stream 26 28 Hlen ltac:(lia)) as Hf.
  change (Z.of_nat 24) with 24 in Hb. change (Z.of_nat 26) with 26 in Hb, Hf.
  change (Z.of_nat 28) with 28 in Hf.
  change (2 ^ (8 * Z.of_nat (26 - 24) - 1)) with 32768 in Hb.
  change (2 ^ (8 * Z.of_nat (28 - 26) - 1)) with 32768 in Hf.
  split; [lia|]. split; [lia|]. nia.
Qed.

Lemma inspect_header_bounds_witness :
  exists h, inspect_header header_10_ffff = Some h
            /\ 0 <= nr_of_channels h <= 63.
Proof.
  eexists. split; [reflexivity|].
  apply (inspect_header_bounds header_10_ffff). reflexivity.
Defined.

(** X3: the frame count is the signed 16-bit integer at bytes 26-27 and
    the frame size the one at bytes 24-25; nothing else of the buffer but
    the channel field at bytes 12-19 is looked at: the preamble, item and
    serial numbers, the reserved field, the frame counter and everything
    after byte 31 do not influence the result. *)
Theorem inspect_header_layout (data_stream other : bytes) :
  (32 <= List.length data_stream)%nat ->
  (32 <= List.length other)%nat ->
  slice other 12 20 = slice data_stream 12 20 ->
  slice other 24 28 = slice data_stream 24 28 ->
  exists h,
    inspect_header data_stream = Some h
    /\ inspect_header other = Some h
    /\ nr_of_frames h = le_signed (slice data_stream 26 28)
    /\ bytes_per_frame h = le_signed (slice data_stream 24 26).
Proof.
  intros H1 H2 Hc Hf.
  rewrite (inspect_header_fields _ H1), (inspect_header_fields _ H2).
  eexists. split; [reflexivity|]. split; [|split; reflexivity].
  assert (Hsub : forall l : bytes, (32 <= List.length l)%nat ->
            slice l 24 26 = firstn 2 (slice l 24 28)
            /\ slice l 26 28 = skipn 2 (slice l 24 28)).
  { intros l Hl. change 24 with (Z.of_nat 24). change 26 with (Z.of_nat 26).
    change 28 with (Z.of_nat 28).
    rewrite !slice_firstn_skipn by lia.
    change (26 - 24)%nat with 2%nat. change (28 - 24)%nat with 4%nat.
    change (28 - 26)%nat with 2%nat.
    rewrite firstn_firstn. change (Nat.min 2 4) with 2%nat.
    split; [reflexivity|].
    rewrite skipn_firstn_comm, skipn_skipn. reflexivity. }
  destruct (Hsub _ H1) as [-> ->]. destruct (Hsub _ H2) as [-> ->].
  now rewrite Hc, Hf.
Qed.

Lemma inspect_header_layout_witness :
  exists h,
    inspect_header (header_2ch_3x8 ++ payload_3x8) = Some h
    /\ nr_of_frames h = 3 /\ bytes_per_frame h = 8.
Proof.
  destruct (inspect_header_layout (header_2ch_3x8 ++ payload_3x8)
              header_2ch_3x8) as (h & Hd & _ & Hf & Hb);
    [cbn; lia | cbn; lia | reflexivity | reflexivity |].
  exists h. split; [exact Hd|]. split; [exact Hf | exact Hb].
Defined.

(** ** More on the command exchange *)

Local Open Scope string_scope.

Lemma count_char_nonneg (c : ascii) (s : string) : 0 <= count_char c s.
Proof.
  induction s as [|a s IH]; cbn [count_char]; [lia|].
  destruct (Ascii.eqb a c); lia.
Qed.

Lemma remove_char_gone (c : ascii) (s : string) :
  count_char c (remove_char c s) = 0.
Proof.
  induction s as [|a s IH]; cbn [remove_char]; [reflexivity|].
  destruct (Ascii.eqb a c) eqn:E; [exact IH|].
  cbn [count_char]. rewrite E, IH. reflexivity.
Qed.

Lemma remove_char_keeps_absent (c d : ascii) (s : string) :
  count_char d s = 0 -> count_char d (remove_char c s) = 0.
Proof.
  induction s as [|a s IH]; cbn [remove_char count_char]; [reflexivity|].
  intros H. pose proof (count_char_nonneg d s) as Hn.
  destruct (Ascii.eqb a d) eqn:Ed; [lia|].
  destruct (Ascii.eqb a c); [apply IH; lia|].
  cbn [count_char]. rewrite Ed. rewrite IH; lia.
Qed.

Lemma remove_char_absent (c : ascii) (s : string) :
  count_char c s = 0 -> remove_char c s = s.
Proof.
  induction s as [|a s IH]; cbn [remove_char count_char]; [reflexivity|].
  intros H. pose proof (count_char_nonneg c s) as Hn.
  destruct (Ascii.eqb a c); [lia|]. rewrite IH; [reflexivity | lia].
Qed.

(** The command as sent has neither CR nor LF left. *)
Lemma cleaned_command (com : string) :
  let sent := remove_char LF (remove_char CR com) in
  count_char CR sent = 0 /\ count_char LF sent = 0.
Proof.
  split; [|apply remove_char_gone].
  apply remove_char_keeps_absent, remove_char_gone.
Qed.

Lemma encode_ascii_absent (c : ascii) (s : string) :
  forall bs,
    encode_ascii s = Some bs -> count_char c s = 0 ->
    ~ In (byte_of_ascii c) bs.
Proof.
  induction s as [|a s IH]; intros bs; cbn [encode_ascii count_char].
  - intros [= <-] _ [].
  - destruct (is_ascii_char a); [|discriminate].
    destruct (encode_ascii s) as [bs'|]; [|discriminate].
    intros [= <-] H. pose proof (count_char_nonneg c s) as Hn.
    destruct (Ascii.eqb a c) eqn:E; [lia|].
    intros [Hb|Hb].
    + apply (f_equal ascii_of_byte) in Hb.
      rewrite !ascii_of_byte_of_ascii in Hb.
      apply Ascii.eqb_neq in E. contradiction.
    + apply (IH bs' eq_refl ltac:(lia) Hb).
Qed.

(** Decoding undoes encoding. *)
Lemma decode_encode_ascii (s : string) :
  forall bs, encode_ascii s = Some bs -> decode_ascii bs = Some s.
Proof.
  induction s as [|a s IH]; intros bs; cbn [encode_ascii].
  - intros [= <-]. reflexivity.
  - destruct (is_ascii_char a) eqn:Ea; [|discriminate].
    destruct (encode_ascii s) as [bs'|]; [|discriminate].
    intros [= <-]. cbn [decode_ascii].
    rewrite ascii_of_byte_of_ascii, Ea, (IH bs' eq_refl). reflexivity.
Qed.

(** X4: whatever is written for a command is one line: the byte [$], the
    ASCII encoding of the command with its CR and LF characters removed,
    then CR LF; no other CR or LF byte is sent, so one call cannot carry
    two commands. *)
Theorem command_wire_format (com : string) (t : telnet) (sent : bytes) :
  In (Wrote sent) (snd (command com t))
  \/ In (WriteFailed sent) (snd (command com t)) ->
  exists payload,
    sent = (x24 :: payload ++ [x0d; x0a])%byte%list
    /\ decode_ascii payload = Some (remove_char LF (remove_char CR com))
    /\ ~ In x0d%byte payload
    /\ ~ In x0a%byte payload.
Proof.
  unfold command.
  destruct (cleaned_command com) as [Hcr Hlf].
  destruct (encode_ascii (remove_char LF (remove_char CR com)))
    as [payload|] eqn:He; [|intros [[]|[]]].
  intros Hin. exists payload.
  assert (Hs : sent = (x24 :: payload ++ [x0d; x0a])%byte%list).
  { destruct (write_raises t).
    - destruct Hin as [[H|[]]|[H|[]]]; [discriminate H|].
      injection H as <-. reflexivity.
    - destruct (eager t) as [raw| |]; [destruct (decode_ascii raw)| |];
        destruct Hin as [[H|[H|[]]]|[H|[H|[]]]]; try discriminate H;
        injection H as <-; reflexivity. }
  split; [exact Hs|]. split; [apply decode_encode_ascii, He|].
  split.
  - apply (encode_ascii_absent CR _ _ He Hcr).
  - apply (encode_ascii_absent LF _ _ He Hlf).
Qed.

Lemma command_wire_format_witness :
  exists payload,
    [x24; x53; x54; x53; x0d; x0a]%byte
    = (x24 :: payload ++ [x0d; x0a])%byte%list
    /\ ~ In x0a%byte payload.
Proof.
  destruct (command_wire_format
              (String "S" (String LF (String "T" (String CR "S"))))
              (replying [])
              [x24; x53; x54; x53; x0d; x0a]%byte)
    as (payload & Hs & _ & _ & Hlf);
    [left; cbn; left; reflexivity|].
  exists payload. split; [exact Hs | exact Hlf].
Defined.

(** X5: CR and LF characters in the command are ignored: the exchange is
    the one of the command without them. *)
Theorem command_ignores_crlf (com : string) (t : telnet) :
  command com t = command (remove_char LF (remove_char CR com)) t.
Proof.
  destruct (cleaned_command com) as [Hcr Hlf]. unfold command.
  rewrite (remove_char_absent CR _ Hcr), (remove_char_absent LF _ Hlf).
  reflexivity.
Qed.

Lemma classify_not_transport (com response c : string) :
  classify com response <> inl (DeviceError (CouldNotExecute c)).
Proof.
  unfold classify.
  destruct (startswith _ _); [|discriminate].
  destruct (endswith _ _); [discriminate|].
  destruct (String.eqb _ _); [discriminate|].
  destruct (String.eqb _ _); discriminate.
Qed.

(** X6: the could-not-execute error is raised exactly when the command is
    ASCII and a transport call raised: the write (then nothing is read), or
    the read with [EOFError] or [OSError].  It carries the command as
    sent. *)
Theorem command_could_not_execute (com c : string) (t : telnet) :
  (fst (command com t) = inl (DeviceError (CouldNotExecute c))
   <-> c = remove_char LF (remove_char CR com)
       /\ encode_ascii c <> None
       /\ (write_raises t = true
           \/ eager t = ReadEOFError \/ eager t = ReadOSError))
  /\ (write_raises t = true ->
      forall r, ~ In (Read r) (snd (command com t))).
Proof.
  unfold command. split; [split|].
  - destruct (encode_ascii (remove_char LF (remove_char CR com)))
      as [payload|] eqn:He; [|discriminate].
    destruct (write_raises t).
    + intros [= <-]. rewrite He. split; [reflexivity|].
      split; [discriminate | now left].
    + destruct (eager t) as [raw| |].
      * destruct (decode_ascii raw); cbn [fst]; [|discriminate].
        intros H. now apply classify_not_transport in H.
      * intros [= <-]. rewrite He. split; [reflexivity|].
        split; [discriminate | right; now left].
      * intros [= <-]. rewrite He. split; [reflexivity|].
        split; [discriminate | right; now right].
  - intros (-> & He & Hfail).
    destruct (encode_ascii (remove_char LF (remove_char CR com)));
      [|contradiction].
    destruct (write_raises t); [reflexivity|].
    destruct Hfail as [H|[H|H]]; [discriminate H | |]; rewrite H;
      reflexivity.
  - intros Hw r. rewrite Hw.
    destruct (encode_ascii (remove_char LF (remove_char CR com)));
      cbn [snd]; [intros [H|[]]; discriminate H | intros []].
Qed.

Lemma command_could_not_execute_witness :
  fst (command "STS" {| write_raises := true; eager := ReadBytes [] |})
  = inl (DeviceError (CouldNotExecute "STS")).
Proof.
  apply (command_could_not_execute "STS" "STS"
           {| write_raises := true; eager := ReadBytes [] |}).
  split; [reflexivity|]. split; [discriminate | now left].
Defined.

Lemma string_app_assoc (s t u : string) : (s ++ t) ++ u = s ++ t ++ u.
Proof. induction s as [|a s IH]; cbn; [reflexivity | now rewrite IH]. Qed.

Lemma lstrip_crlf_lead (lead s : string) :
  all_crlf lead = true -> lstrip_crlf (lead ++ s) = lstrip_crlf s.
Proof.
  induction lead as [|a lead IH]; cbn [all_crlf append lstrip_crlf];
    [reflexivity|].
  intros H. apply andb_true_iff in H. destruct H as [Ha Hl].
  rewrite Ha. now apply IH.
Qed.

Lemma rstrip_crlf_all (trail : string) :
  all_crlf trail = true -> rstrip_crlf trail = EmptyString.
Proof.
  induction trail as [|a trail IH]; cbn [all_crlf rstrip_crlf];
    [reflexivity|].
  intros H. apply andb_true_iff in H. destruct H as [Ha Hl].
  now rewrite (IH Hl), Ha.
Qed.

Lemma rstrip_crlf_trail (s trail : string) :
  all_crlf trail = true -> rstrip_crlf (s ++ trail) = rstrip_crlf s.
Proof.
  intros H. induction s as [|a s IH]; cbn [append rstrip_crlf].
  - now apply rstrip_crlf_all.
  - now rewrite IH.
Qed.

Lemma rstrip_crlf_last (s : string) (a : ascii) :
  is_crlf a = false ->
  rstrip_crlf (s ++ String a EmptyString) = s ++ String a EmptyString.
Proof.
  intros Ha. induction s as [|b s IH]; cbn [append rstrip_crlf].
  - now rewrite Ha.
  - rewrite IH. destruct s; reflexivity.
Qed.

(** X7: round trip of a successful exchange.  For an ASCII command, if the
    device replies with [$], the command as sent, some text and [OK], with
    any CR/LF characters before and after, the call returns exactly that
    text. *)
Theorem command_round_trip (com text lead trail : string) (raw : bytes) :
  let sent := remove_char LF (remove_char CR com) in
  encode_ascii sent <> None ->
  encode_ascii (lead ++ "$" ++ sent ++ text ++ "OK" ++ trail) = Some raw ->
  all_crlf lead = true ->
  all_crlf trail = true ->
  fst (command com (replying raw)) = inr text.
Proof.
  intros sent Hc Hraw Hlead Htrail. unfold command. fold sent.
  destruct (encode_ascii sent) as [payload|]; [|contradiction].
  cbn [replying write_raises eager].
  rewrite (decode_encode_ascii _ _ Hraw). cbn [fst].
  apply classify_success. unfold strip_crlf.
  rewrite (lstrip_crlf_lead _ _ Hlead).
  cbn [append lstrip_crlf]. change (is_crlf "$") with false. cbv iota.
  assert (E : String "$" (sent ++ text ++ String "O" (String "K" trail))
              = (String "$" (sent ++ text ++ "O") ++ "K") ++ trail)
    by (cbn [append]; now rewrite !string_app_assoc).
  rewrite E, (rstrip_crlf_trail _ _ Htrail).
  rewrite rstrip_crlf_last by reflexivity.
  cbn [append]. now rewrite !string_app_assoc.
Qed.

Lemma command_round_trip_witness :
  fst (command "STI50000" (replying reply_sti_ok)) = inr ",50000".
Proof.
  apply (command_round_trip "STI50000" ",50000" EmptyString
           (String CR (String LF EmptyString)) reply_sti_ok);
    [discriminate | reflexivity | reflexivity | reflexivity].
Defined.

Local Close Scope string_scope.

(** ** What [get_data] returns on whole packets *)

Lemma set_row_at (done rest : list (list Z)) (old row : list Z) :
  set_row (done ++ old :: rest) (List.length done) row
  = Some (done ++ row :: rest).
Proof.
  induction done as [|r done IH]; cbn [app List.length set_row];
    [reflexivity | now rewrite IH].
Qed.

Lemma firstn_firstn_app {A} (n : nat) (l more : list A) :
  firstn n (firstn n l ++ more) = firstn n (l ++ more)
  /\ (n <=? List.length (firstn n l ++ more))%nat
     = (n <=? List.length (l ++ more))%nat.
Proof.
  destruct (Nat.le_gt_cases (List.length l) n) as [H|H].
  - rewrite (firstn_all2 l H). split; reflexivity.
  - split.
    + rewrite !firstn_app, firstn_firstn, Nat.min_id, length_firstn.
      replace (n - Nat.min n (List.length l))%nat with 0%nat by lia.
      replace (n - List.length l)%nat with 0%nat by lia. reflexivity.
    + rewrite !length_app, length_firstn.
      destruct (Nat.leb_spec n (Nat.min n (List.length l)
                                + List.length more));
        destruct (Nat.leb_spec n (List.length l + List.length more));
        try reflexivity; lia.
Qed.

Lemma returned_done (channels : list Z) (st : state) :
  returned channels (LoopDone st) = inr (channel_major channels (data st)).
Proof.
  unfold returned, channel_major.
  destruct (List.length channels =? 1)%nat eqn:E; [|reflexivity].
  apply Nat.eqb_eq in E. rewrite E. reflexivity.
Qed.

Section Rows.

Variables itemsize data_points : nat.
Variable channels : list Z.

Local Abbreviation loop := (get_data_loop itemsize data_points channels).
Local Abbreviation frames := (frames_loop itemsize data_points channels).
Local Abbreviation zeros := (fun k => np_zeros k (List.length channels)).

(** The frame loop on decodable frames: the rows are written after the
    ones already collected, up to the requested count. *)
Lemma frames_rows (payload : bytes) (bpf : Z) (range : list nat) :
  forall collected rows,
    frame_rows itemsize channels payload bpf range = Some rows ->
    (List.length collected <= data_points)%nat ->
    let collected' := firstn data_points (collected ++ rows) in
    frames payload bpf range
           (collected ++ zeros (data_points - List.length collected)%nat)
           (List.length collected)
    = inr (collected'
             ++ zeros (data_points - List.length collected')%nat,
           List.length collected').
Proof.
  induction range as [|i range IH]; intros collected rows;
    cbn [frame_rows frames_loop].
  - intros [= <-] Hle. cbv zeta. rewrite app_nil_r, firstn_all2 by lia.
    reflexivity.
  - destruct (frombuffer _ _) as [arr|]; [|discriminate].
    destruct (take arr channels) as [row|]; [|discriminate].
    destruct (frame_rows _ _ _ _ range) as [rows'|] eqn:Hr; [|discriminate].
    intros [= <-] Hle. cbv zeta.
    destruct (List.length collected <? data_points)%nat eqn:E.
    + apply Nat.ltb_lt in E.
      replace (data_points - List.length collected)%nat
        with (S (data_points - S (List.length collected))) by lia.
      unfold np_zeros at 1. cbn [repeat]. rewrite set_row_at.
      specialize (IH (collected ++ [row]) rows' eq_refl).
      rewrite length_app in IH. cbn [List.length] in IH.
      rewrite Nat.add_1_r in IH. rewrite <- !app_assoc in IH.
      cbn [app] in IH. apply IH. lia.
    + apply Nat.ltb_ge in E.
      assert (Hn : data_points = List.length collected) by lia.
      rewrite Hn, firstn_app, firstn_all, !Nat.sub_diag.
      cbn [firstn np_zeros repeat]. rewrite !app_nil_r, Nat.sub_diag.
      cbn [repeat]. now rewrite app_nil_r.
Qed.

(** The loop on whole, decodable packets, all bytes buffered. *)
Lemma loop_rows (pkts : list packet) :
  forall fuel collected rows,
    forallb well_formed pkts = true ->
    stream_rows itemsize channels pkts = Some rows ->
    (List.length pkts < fuel)%nat ->
    (List.length collected <= data_points)%nat ->
    option_map (returned channels)
      (loop fuel {| data_stream := wire pkts;
                    data := collected
                            ++ zeros (data_points - List.length collected)%nat;
                    received_data_points := List.length collected;
                    sock := [] |})
    = Some (inr (if (data_points <=? List.length (collected ++ rows))%nat
                 then channel_major channels
                        (firstn data_points (collected ++ rows))
                 else Array2 ((collected ++ rows)
                              ++ zeros (data_points
                                        - List.length (collected ++ rows))%nat))).
Proof.
  induction pkts as [|[hd pl] rest IH];
    intros fuel collected rows Hwf Hrows Hfuel Hle;
    (destruct fuel as [|fuel]; [cbn [List.length] in Hfuel; lia|]);
    cbn [get_data_loop received_data_points data_stream sock data];
    destruct (List.length collected <? data_points)%nat eqn:E.
  - apply Nat.ltb_lt in E. cbn [stream_rows] in Hrows.
    injection Hrows as <-. rewrite app_nil_r.
    change (await 32 (wire []) []) with (TimedOut (@nil byte) []).
    cbn [option_map returned data].
    destruct (Nat.leb_spec data_points (List.length collected));
      [lia | reflexivity].
  - apply Nat.ltb_ge in E. cbn [option_map]. rewrite returned_done.
    cbn [data].
    replace (data_points - List.length collected)%nat with 0%nat by lia.
    cbn [np_zeros repeat]. rewrite app_nil_r.
    rewrite firstn_app, firstn_all2 by lia.
    replace (data_points - List.length collected)%nat with 0%nat by lia.
    cbn [firstn]. rewrite app_nil_r, length_app.
    destruct (Nat.leb_spec data_points
                (List.length collected + List.length rows));
      [reflexivity | lia].
  - apply Nat.ltb_lt in E.
    destruct (well_formed_cons _ _ _ Hwf) as (Hhd & (h & Hh & Hps) & Hrest).
    cbn [stream_rows] in Hrows. unfold packet_rows in Hrows.
    cbn [fst snd] in Hrows. rewrite Hh in Hrows.
    destruct (py_max channels) as [m|]; [|discriminate].
    destruct (m + 1 >? nr_of_channels h) eqn:Hch; [discriminate|].
    destruct (frame_rows itemsize channels pl (bytes_per_frame h) _)
      as [here|] eqn:Hhere; [|discriminate].
    destruct (stream_rows itemsize channels rest) as [more|] eqn:Hmore;
      [|discriminate].
    injection Hrows as <-.
    rewrite wire_cons.
    set (W := (hd ++ pl ++ wire rest)%list) in *.
    assert (HW : 32 + Z.of_nat (List.length pl)
                 <= Z.of_nat (List.length W)).
    { subst W. rewrite !length_app. lia. }
    rewrite (await_enough 32 W []) by lia.
    assert (HhW : inspect_header W = Some h).
    { subst W. rewrite inspect_header_app by lia. exact Hh. }
    rewrite HhW, Hch, Hps, (await_enough _ W []) by lia.
    destruct (buffered_packet W [] hd pl (wire rest))
      as [HplW HrestW]; [now rewrite app_nil_r | exact Hhd | exact HW |].
    rewrite app_nil_r in HrestW. rewrite HplW, HrestW.
    rewrite (frames_rows _ _ _ _ _ Hhere Hle). cbv beta iota zeta.
    rewrite (IH fuel _ more Hrest eq_refl);
      [|cbn [List.length] in Hfuel; lia | rewrite length_firstn; lia].
    destruct (firstn_firstn_app data_points (collected ++ here) more)
      as [-> ->].
    rewrite <- !app_assoc.
    destruct (Nat.leb_spec data_points
                (List.length (collected ++ here ++ more))) as [Hc|Hc];
      [reflexivity|].
    rewrite (firstn_all2 (collected ++ here))
      by (rewrite !length_app in *; lia).
    now rewrite <- !app_assoc.
  - apply Nat.ltb_ge in E. cbn [option_map]. rewrite returned_done.
    cbn [data].
    replace (data_points - List.length collected)%nat with 0%nat by lia.
    cbn [np_zeros repeat]. rewrite app_nil_r.
    rewrite firstn_app, firstn_all2 by lia.
    replace (data_points - List.length collected)%nat with 0%nat by lia.
    cbn [firstn]. rewrite app_nil_r, length_app.
    destruct (Nat.leb_spec data_points
                (List.length collected + List.length rows));
      [reflexivity | lia].
Qed.

End Rows.

(** X8: what [get_data] returns on a sequence of whole packets that pass
    the channel check and whose frames all decode, however the bytes are
    cut into chunks.  If the packets hold at least the requested number
    of frames, the result is the first [data_points] rows of requested
    channel values, in arrival order across packets, transposed (flat for
    one channel).  If they hold fewer, the call returns on the timeout
    with all the rows followed by zero rows up to [data_points],
    untransposed. *)
Theorem get_data_rows
        (itemsize data_points fuel : nat) (channels : list Z)
        (pkts : list packet) (rows : list (list Z)) (chunks : list bytes) :
  forallb well_formed pkts = true ->
  stream_rows itemsize channels pkts = Some rows ->
  List.concat chunks = wire pkts ->
  (List.length pkts < fuel)%nat ->
  option_map fst (get_data itemsize fuel (Z.of_nat data_points) channels
                           (deliver chunks))
  = Some (inr (if (data_points <=? List.length rows)%nat
               then channel_major channels (firstn data_points rows)
               else Array2 (rows ++ np_zeros (data_points - List.length rows)
                                             (List.length channels)))).
Proof.
  intros Hwf Hrows Hc Hfuel. rewrite get_data_returned. unfold get_data_run.
  destruct (Z.of_nat data_points <? 0) eqn:E; [apply Z.ltb_lt in E; lia|].
  rewrite Nat2Z.id. unfold initial.
  rewrite (loop_chunking itemsize data_points channels fuel pkts [] chunks)
    by assumption.
  pose proof (loop_rows itemsize data_points channels pkts fuel [] rows
                Hwf Hrows Hfuel ltac:(cbn [List.length]; lia)) as H.
  cbn [app List.length] in H. rewrite Nat.sub_0_r in H. exact H.
Qed.

Lemma get_data_rows_witness :
  option_map fst (get_data 4 3 4 [1; 0]
                           (deliver (bytewise (wire two_packets))))
  = Some (inr (Array2 [[20; 21; 22; 20]; [10; 11; 12; 10]])).
Proof.
  apply (get_data_rows 4 4 3 [1; 0] two_packets
           [[20; 10]; [21; 11]; [22; 12]; [20; 10]; [21; 11]; [22; 12]]
           (bytewise (wire two_packets)));
    [reflexivity | reflexivity | apply concat_bytewise | cbn; lia].
Defined.

(** ** Shapes, exceptions and non-termination *)

Lemma take_length (arr : list Z) (channels : list Z) :
  forall row, take arr channels = Some row ->
              List.length row = List.length channels.
Proof.
  induction channels as [|c channels IH]; intros row; cbn [take].
  - intros [= <-]. reflexivity.
  - destruct (item arr c); [|discriminate].
    destruct (take arr channels) as [vs|]; [|discriminate].
    intros [= <-]. cbn [List.length]. now rewrite (IH vs eq_refl).
Qed.

Lemma set_row_shape (P : list Z -> Prop) (row : list Z) :
  forall a i a',
    set_row a i row = Some a' ->
    List.length a' = List.length a /\ (Forall P a -> P row -> Forall P a').
Proof.
  induction a as [|r a IH]; intros i a'; cbn [set_row]; [discriminate|].
  destruct i as [|i].
  - intros [= <-]. split; [reflexivity|].
    intros Ha Hrow. inversion Ha; subst. now constructor.
  - destruct (set_row a i row) as [rest|] eqn:E; [|discriminate].
    intros [= <-]. destruct (IH _ _ E) as [Hl Hf].
    cbn [List.length]. split; [now rewrite Hl|].
    intros Ha Hrow. inversion Ha; subst. constructor; auto.
Qed.

Section Shapes.

Variables itemsize data_points : nat.
Variable channels : list Z.

Local Abbreviation loop := (get_data_loop itemsize data_points channels).
Local Abbreviation frames := (frames_loop itemsize data_points channels).

Local Abbreviation point_major := (sample_rows data_points channels).

Lemma np_zeros_point_major :
  point_major (np_zeros data_points (List.length channels)).
Proof.
  unfold sample_rows, np_zeros. split; [apply repeat_length|].
  apply Forall_forall. intros row Hin. apply repeat_spec in Hin.
  subst row. apply repeat_length.
Qed.

Lemma frames_point_major payload bpf range :
  forall rows received rows' received',
    frames payload bpf range rows received = inr (rows', received') ->
    point_major rows -> point_major rows'.
Proof.
  induction range as [|i range IH]; intros rows received rows' received';
    cbn [frames_loop].
  - intros [= <- <-] H. exact H.
  - destruct (received <? data_points)%nat;
      [|intros [= <- <-] H; exact H].
    destruct (frombuffer _ _) as [arr|]; [|discriminate].
    destruct (take arr channels) as [row|] eqn:Ht; [|discriminate].
    destruct (set_row rows received row) as [rows1|] eqn:Hs; [|discriminate].
    intros H [Hl Hf]. apply (IH _ _ _ _ H).
    destruct (set_row_shape
                (fun row => List.length row = List.length channels)
                _ _ _ _ Hs) as [Hl1 Hf1].
    split; [congruence|]. apply Hf1; [exact Hf|]. apply (take_length _ _ _ Ht).
Qed.

Lemma loop_point_major (fuel : nat) :
  forall st o,
    loop fuel st = Some o ->
    point_major (data st) -> point_major (data (final_state o)).
Proof.
  induction fuel as [|fuel IH]; intros st o; cbn [get_data_loop];
    destruct (received_data_points st <? data_points)%nat;
    try discriminate; try (intros [= <-] H; exact H).
  destruct (await 32 _ _) as [buf s|buf s];
    [|intros [= <-] H; exact H].
  destruct (inspect_header buf) as [h|]; [|intros [= <-] H; exact H].
  destruct (py_max channels) as [m|]; [|intros [= <-] H; exact H].
  destruct (m + 1 >? nr_of_channels h); [intros [= <-] H; exact H|].
  destruct (await (32 + payload_size h) buf s) as [buf' s'|buf' s'];
    [|intros [= <-] H; exact H].
  destruct (frames _ _ _ _ _) as [e|[rows' received']] eqn:Hf;
    [intros [= <-] H; exact H|].
  intros H Hp. apply (IH _ _ H). cbn [data].
  apply (frames_point_major _ _ _ _ _ _ _ Hf Hp).
Qed.

(** Which exceptions leave the loop: the device error of the channel
    check, for a header whose channel count is at most [max(channels)]; a
    timeout; or one of the numpy errors. *)
Lemma loop_raises (fuel : nat) :
  forall st e st',
    loop fuel st = Some (Raised e st') ->
    e = SocketTimeout \/ e = ValueError \/ e = IndexError
    \/ exists m h, py_max channels = Some m
                   /\ inspect_header (data_stream st') = Some h
                   /\ nr_of_channels h <= m
                   /\ e = DeviceError (OnlyChannels (nr_of_channels h)).
Proof.
  induction fuel as [|fuel IH]; intros st e st'; cbn [get_data_loop];
    destruct (received_data_points st <? data_points)%nat;
    try discriminate.
  destruct (await 32 _ _) as [buf s|buf s] eqn:Hw; [|discriminate].
  destruct (await_filled _ _ _ _ _ Hw) as [Hlen _].
  destruct (inspect_header buf) as [h|] eqn:Hh.
  - destruct (py_max channels) as [m|];
      [|intros [= <- <-]; right; now left].
    destruct (m + 1 >? nr_of_channels h) eqn:Hch.
    + intros [= <- <-]. right. right. right. exists m, h.
      rewrite Z.gtb_ltb in Hch. apply Z.ltb_lt in Hch.
      cbn [data_stream]. repeat split; try assumption; lia.
    + destruct (await (32 + payload_size h) buf s) as [buf' s'|buf' s'];
        [|intros [= <- <-]; now left].
      destruct (frames _ _ _ _ _) as [e'|[rows' received']] eqn:Hf.
      * intros [= <- <-].
        destruct (frames_error _ _ _ _ _ _ _ _ _ Hf) as [-> | ->];
          right; [now left | right; now left].
      * apply IH.
  - rewrite (inspect_header_fields buf) in Hh by lia. discriminate Hh.
Qed.

(** A buffered header with payload size -32 and no frames to run through
    is never got past: the iteration drops [32 + payload_size = 0] bytes
    and starts again on the same header. *)
Lemma loop_spins (buf : bytes) (s : socket) (h : header_info) (m : Z) :
  inspect_header buf = Some h ->
  payload_size h = -32 ->
  nr_of_frames h <= 0 ->
  py_max channels = Some m ->
  m < nr_of_channels h ->
  forall fuel st,
    (received_data_points st < data_points)%nat ->
    await 32 (data_stream st) (sock st) = Filled buf s ->
    loop fuel st = None.
Proof.
  intros Hh Hps Hnf Hm Hch.
  induction fuel as [|fuel IH]; intros st Hlt Hw;
    cbn [get_data_loop]; apply Nat.ltb_lt in Hlt; rewrite Hlt;
    [reflexivity|].
  destruct (await_filled _ _ _ _ _ Hw) as [Hlen _].
  rewrite Hw, Hh, Hm.
  destruct (m + 1 >? nr_of_channels h) eqn:E.
  - rewrite Z.gtb_ltb in E. apply Z.ltb_lt in E. lia.
  - rewrite Hps. change (32 + -32) with 0.
    rewrite (await_enough 0 buf s) by lia.
    replace (Z.to_nat (nr_of_frames h)) with 0%nat by lia.
    cbn [seq frames_loop]. unfold slice_from.
    cbn [slice_bound Z.ltb Z.compare Z.to_nat Nat.min skipn].
    apply IH; cbn [received_data_points data_stream sock].
    + now apply Nat.ltb_lt.
    + apply await_enough. lia.
Qed.

End Shapes.





(** X11: [get_data] does not return when a header arrives that decodes
    with a payload size of -32 and a frame count that is not positive
    (such as -4 frames of 8 bytes) and passes the channel check: each
    iteration removes [32 + payload_size = 0] bytes and finds the same
    header again, without reading the socket.  No amount of fuel gives a
    result. *)
Theorem get_data_hangs
        (itemsize data_points : nat) (channels : list Z)
        (buf : bytes) (s : socket) (h : header_info) (m : Z) :
  (0 < data_points)%nat ->
  (32 <= List.length buf)%nat ->
  inspect_header buf = Some h ->
  payload_size h = -32 ->
  nr_of_frames h <= 0 ->
  py_max channels = Some m ->
  m < nr_of_channels h ->
  forall fuel,
    get_data itemsize fuel (Z.of_nat data_points) channels (Recv buf :: s)
    = None.
Proof.
  intros Hn Hlen Hh Hps Hnf Hm Hch fuel. unfold get_data, get_data_run.
  destruct (Z.of_nat data_points <? 0) eqn:E; [apply Z.ltb_lt in E; lia|].
  rewrite Nat2Z.id.
  rewrite (loop_spins itemsize data_points channels buf s h m
             Hh Hps Hnf Hm Hch fuel (initial data_points channels
                                             (Recv buf :: s)));
    [reflexivity | exact Hn |].
  cbn [initial data_stream sock].
  change (await 32 [] (Recv buf :: s)) with (await 32 buf s).
  apply await_enough. lia.
Qed.

Lemma get_data_hangs_witness :
  get_data 4 1000 1 [0; 1] [Recv header_minus_4x8] = None.
Proof.
  apply (get_data_hangs 4 1 [0; 1] header_minus_4x8 []
           {| nr_of_channels := 2; nr_of_frames := -4;
              bytes_per_frame := 8; payload_size := -32 |} 1 ltac:(lia));
    [cbn; lia | reflexivity | reflexivity | cbn; lia | reflexivity
    | cbn; lia].
Defined.

(** X12: a wait for bytes ([while len(data_stream) < target: recv]) that
    ends with enough bytes has read a run of chunks from the front of the
    socket and appended them in order to the buffer, nothing lost or
    duplicated; and it has read no chunk it did not need: before each
    [recv] the buffer was still short of the target. *)
Theorem await_reads_what_is_needed (target : Z) (s : socket) :
  forall buf buf' s',
    await target buf s = Filled buf' s' ->
    exists chunks,
      s = (deliver chunks ++ s')%list
      /\ buf' = (buf ++ List.concat chunks)%list
      /\ target <= Z.of_nat (List.length buf')
      /\ forall k, (k < List.length chunks)%nat ->
            Z.of_nat (List.length (buf ++ List.concat (firstn k chunks)))
            < target.
Proof.
  induction s as [|e s IH]; intros buf buf' s'; cbn [await];
    destruct (Z.of_nat (List.length buf) <? target) eqn:E;
    try discriminate.
  - intros [= <- <-]. apply Z.ltb_ge in E. exists [].
    cbn [deliver map List.concat app List.length]. rewrite app_nil_r.
    repeat split; try assumption. intros k Hk. lia.
  - destruct e as [chunk|]; [|discriminate].
    intros H. destruct (IH _ _ _ H) as (chunks & Hs & Hb & Ht & Hk).
    exists (chunk :: chunks). cbn [deliver map List.concat app].
    split; [now rewrite Hs|]. split; [now rewrite Hb, app_assoc|].
    split; [exact Ht|]. intros [|k] Hlt.
    + cbn [firstn List.concat]. rewrite app_nil_r.
      now apply Z.ltb_lt.
    + cbn [firstn List.concat]. rewrite app_assoc. apply Hk.
      cbn [List.length] in Hlt. lia.
  - intros [= <- <-]. apply Z.ltb_ge in E. exists [].
    cbn [deliver map List.concat app List.length]. rewrite app_nil_r.
    repeat split; try assumption. intros k Hk. lia.
Qed.

Lemma await_reads_what_is_needed_witness :
  exists chunks,
    [Recv header_2ch_3x8; Recv payload_3x8]
    = (deliver chunks ++ [Recv payload_3x8])%list
    /\ List.length chunks = 1%nat.
Proof.
  destruct (await_reads_what_is_needed 32
              [Recv header_2ch_3x8; Recv payload_3x8] []
              header_2ch_3x8 [Recv payload_3x8] eq_refl)
    as (chunks & Hs & _ & _ & _).
  exists chunks. split; [exact Hs|].
  apply (f_equal (@List.length event)) in Hs.
  unfold deliver in Hs. rewrite length_app, length_map in Hs.
  cbn [List.length] in Hs. lia.
Defined.

(** ** Connecting and checking the status *)

Local Open Scope string_scope.

Lemma drain_stale (stale : list bytes) (rest : list read_result) :
  Forall (fun chunk => chunk <> []) stale ->
  drain (map ReadBytes stale ++ rest) = drain rest.
Proof.
  induction 1 as [|chunk stale Hc _ IH]; cbn [map app drain];
    [reflexivity|].
  destruct chunk; [contradiction | exact IH].
Qed.

(** X13: [connect] on a line that opens discards every non-empty chunk
    that is already there, up to and including the first empty read, and
    leaves the rest unread; if the chunks run out it stops as well.  An
    [EOFError] after the stale chunks becomes the closed-unexpectedly
    device error; an [OSError] there is not caught. *)
Theorem connect_drains
        (l : line) (stale : list bytes) (rest : list read_result) :
  open_raises l = false ->
  Forall (fun chunk => chunk <> []) stale ->
  (reads l = (map ReadBytes stale ++ ReadBytes [] :: rest)%list ->
   connect l = inr {| open_raises := false;
                      writes_raise := writes_raise l; reads := rest |})
  /\ (reads l = map ReadBytes stale ->
      connect l = inr {| open_raises := false;
                         writes_raise := writes_raise l; reads := [] |})
  /\ (reads l = (map ReadBytes stale ++ ReadEOFError :: rest)%list ->
      connect l = inl (ConnectRaised ClosedUnexpectedly))
  /\ (reads l = (map ReadBytes stale ++ ReadOSError :: rest)%list ->
      connect l = inl OSErrorRaised).
Proof.
  intros Ho Hs. unfold connect. rewrite Ho.
  split; [|split; [|split]]; intros ->.
  - now rewrite (drain_stale _ _ Hs).
  - rewrite <- (app_nil_r (map ReadBytes stale)).
    now rewrite (drain_stale _ _ Hs).
  - now rewrite (drain_stale _ _ Hs).
  - now rewrite (drain_stale _ _ Hs).
Qed.

Lemma connect_drains_witness :
  connect (status_line "1")
  = inr {| open_raises := false; writes_raise := [];
           reads := [ReadBytes (ascii_bytes "$STSa;bOK");
                     ReadBytes (ascii_bytes "$LIN?1OK")] |}.
Proof.
  destruct (connect_drains (status_line "1") [ascii_bytes "DT6220"]
              [ReadBytes (ascii_bytes "$STSa;bOK");
               ReadBytes (ascii_bytes "$LIN?1OK")])
    as (H & _); [reflexivity | | apply H; reflexivity].
  constructor; [discriminate | constructor].
Defined.

(** A reply made of [$], the command as sent, a text and [OK], with CR/LF
    characters around it, is answered with the text, on any connection
    whose write goes through. *)
Lemma exchange_round_trip (com text lead trail : string) (raw : bytes)
      (t : telnet) :
  let sent := remove_char LF (remove_char CR com) in
  encode_ascii sent <> None ->
  encode_ascii (lead ++ "$" ++ sent ++ text ++ "OK" ++ trail) = Some raw ->
  all_crlf lead = true ->
  all_crlf trail = true ->
  write_raises t = false ->
  eager t = ReadBytes raw ->
  fst (command com t) = inr text
  /\ existsb is_write (snd (command com t)) = true
  /\ existsb is_read (snd (command com t)) = true.
Proof.
  intros sent Hc Hraw Hlead Htrail Hw Hr. unfold command. fold sent.
  destruct (encode_ascii sent) as [payload|]; [|contradiction].
  rewrite Hw, Hr, (decode_encode_ascii _ _ Hraw). cbn [fst snd].
  split; [|split; reflexivity].
  apply classify_success. unfold strip_crlf.
  rewrite (lstrip_crlf_lead _ _ Hlead).
  cbn [append lstrip_crlf]. change (is_crlf "$") with false. cbv iota.
  assert (E : String "$" (sent ++ text ++ String "O" (String "K" trail))
              = (String "$" (sent ++ text ++ "O") ++ "K") ++ trail)
    by (cbn [append]; now rewrite !string_app_assoc).
  rewrite E, (rstrip_crlf_trail _ _ Htrail).
  rewrite rstrip_crlf_last by reflexivity.
  cbn [append]. now rewrite !string_app_assoc.
Qed.

(** X14: a greeting that is there when the connection is made does not
    reach the first command: after [connect], a command whose write goes
    through and whose reply is [$], the command, a text and [OK] returns
    that text, whatever stale chunks came before the first quiet read, and
    leaves the later reads untouched. *)
Theorem connect_then_command
        (l : line) (stale : list bytes) (rest : list read_result)
        (com text lead trail : string) (raw : bytes) :
  let sent := remove_char LF (remove_char CR com) in
  open_raises l = false ->
  Forall (fun chunk => chunk <> []) stale ->
  reads l = (map ReadBytes stale ++ ReadBytes [] :: ReadBytes raw :: rest)%list ->
  hd false (writes_raise l) = false ->
  encode_ascii sent <> None ->
  encode_ascii (lead ++ "$" ++ sent ++ text ++ "OK" ++ trail) = Some raw ->
  all_crlf lead = true ->
  all_crlf trail = true ->
  exists cs,
    connect l = inr cs
    /\ fst (command_on com cs) = inr text
    /\ reads (snd (command_on com cs)) = rest.
Proof.
  intros sent Ho Hs Hr Hw Hc Hraw Hlead Htrail.
  eexists. split.
  - unfold connect. rewrite Ho, Hr, (drain_stale _ _ Hs). reflexivity.
  - unfold command_on. cbn [writes_raise reads hd tl fst snd].
    destruct (exchange_round_trip com text lead trail raw
                {| write_raises := hd false (writes_raise l);
                   eager := ReadBytes raw |}
                Hc Hraw Hlead Htrail Hw eq_refl) as (Hres & _ & Hread).
    rewrite Hres, Hread. split; reflexivity.
Qed.

Lemma connect_then_command_witness :
  exists cs,
    connect (status_line "1") = inr cs
    /\ fst (command_on "STS" cs) = inr "a;b".
Proof.
  destruct (connect_then_command (status_line "1") [ascii_bytes "DT6220"]
              [ReadBytes (ascii_bytes "$LIN?1OK")]
              "STS" "a;b" EmptyString EmptyString
              (ascii_bytes "$STSa;bOK"))
    as (cs & Hc & Hr & _);
    [reflexivity | constructor; [discriminate | constructor]
    | reflexivity | reflexivity | discriminate | reflexivity
    | reflexivity | reflexivity |].
  exists cs. split; [exact Hc | exact Hr].
Defined.

Lemma check_status_failed_spec (previous : option string) (f : failure) :
  let r := check_status_failed previous f in
  status_response r = previous /\ warnings r = []
  /\ (caught r <> None \/ propagated r <> None)
  /\ (forall g, caught r = Some g ->
                is_device_error g = true /\ propagated r = None)
  /\ (forall g, propagated r = Some g ->
                is_device_error g = false /\ caught r = None).
Proof.
  unfold check_status_failed. destruct (is_device_error f) eqn:E;
    cbn [status_response warnings caught propagated].
  - split; [reflexivity|]. split; [reflexivity|].
    split; [left; discriminate|].
    split; [intros g [= <-]; auto | intros g Hg; discriminate Hg].
  - split; [reflexivity|]. split; [reflexivity|].
    split; [right; discriminate|].
    split; [intros g Hg; discriminate Hg | intros g [= <-]; auto].
Qed.

(** How a call of [check_status] ends: either it failed, with the
    remembered status kept and no warning, or it has a new status and the
    warnings of its comparison with the previous one. *)
Lemma check_status_cases (previous : option string) (l : line) :
  let r := check_status previous l in
  (exists f, r = check_status_failed previous f)
  \/ (exists status,
        status_response r = Some status
        /\ caught r = None /\ propagated r = None
        /\ warnings r
           = match previous with
             | None => []
             | Some old => changed (split_on ";" status) (split_on ";" old)
             end).
Proof.
  unfold check_status.
  destruct (connect l) as [f|cs]; [left; now exists f|].
  destruct (command_on "STS" cs) as [[e|response1] cs'];
    [left; now exists (CommandRaised e)|].
  destruct (command_on "LIN?" cs') as [[e|response2] cs''];
    [left; now exists (CommandRaised e)|].
  right. eexists. cbn [status_response caught propagated warnings].
  repeat split.
Qed.

(** X15: a call of [check_status] in which something was raised (while
    connecting or in either command) leaves the remembered status as it
    was and prints no warning.  What it catches and prints is a
    [DeviceError]; every other exception leaves the call. *)
Theorem check_status_failure_keeps_status
        (previous : option string) (l : line) :
  let r := check_status previous l in
  caught r <> None \/ propagated r <> None ->
  status_response r = previous
  /\ warnings r = []
  /\ (forall f, caught r = Some f ->
                is_device_error f = true /\ propagated r = None)
  /\ (forall f, propagated r = Some f ->
                is_device_error f = false /\ caught r = None).
Proof.
  intros r H. subst r.
  destruct (check_status_cases previous l) as [[f ->]|(status & _ & Hc & Hp & _)].
  - destruct (check_status_failed_spec previous f) as (H1 & H2 & _ & H3 & H4).
    auto.
  - rewrite Hc, Hp in H. destruct H as [H|H]; contradiction.
Qed.

Lemma check_status_failure_keeps_status_witness :
  status_response
    (check_status (Some "a;b;LIN1")
       {| open_raises := true; writes_raise := []; reads := [] |})
  = Some "a;b;LIN1".
Proof.
  apply (check_status_failure_keeps_status (Some "a;b;LIN1")
           {| open_raises := true; writes_raise := []; reads := [] |}).
  left. discriminate.
Defined.

Lemma changed_spec (news olds : list string) (old new : string) :
  In (old, new) (changed news olds)
  <-> exists i, nth_error news i = Some new
                /\ nth_error olds i = Some old /\ new <> old.
Proof.
  revert olds. induction news as [|n news IH]; intros olds.
  - cbn [changed]. split; [intros [] | intros ([|i] & H & _); discriminate H].
  - destruct olds as [|o olds]; cbn [changed].
    + split; [intros [] | intros ([|i] & _ & H & _); discriminate H].
    + destruct (String.eqb n o) eqn:E.
      * apply String.eqb_eq in E. subst o. rewrite IH. split.
        -- intros (i & H). now exists (S i).
        -- intros ([|i] & Hn & Ho & Hd).
           ++ cbn in Hn, Ho. congruence.
           ++ now exists i.
      * apply String.eqb_neq in E. cbn [In]. rewrite IH. split.
        -- intros [[= <- <-]|(i & H)]; [now exists 0%nat | now exists (S i)].
        -- intros ([|i] & Hn & Ho & Hd).
           ++ cbn in Hn, Ho. left. congruence.
           ++ right. now exists i.
Qed.

(** X16: when [check_status] succeeds it remembers the new status, and
    with no previous status it prints no warning; with a previous one it
    prints a warning for a pair (old, new) exactly when these are the
    fields at one same position of the two statuses split at [;] and they
    differ. *)
Theorem check_status_warnings (previous : option string) (l : line) :
  let r := check_status previous l in
  caught r = None ->
  propagated r = None ->
  exists status,
    status_response r = Some status
    /\ (previous = None -> warnings r = [])
    /\ (forall before, previous = Some before ->
        forall old new,
          In (old, new) (warnings r)
          <-> exists i,
                nth_error (split_on ";" status) i = Some new
                /\ nth_error (split_on ";" before) i = Some old
                /\ new <> old).
Proof.
  intros r Hc Hp. subst r.
  destruct (check_status_cases previous l)
    as [[f Hf]|(status & Hs & _ & _ & Hw)].
  - rewrite Hf in Hc, Hp.
    destruct (check_status_failed_spec previous f) as (_ & _ & [H|H] & _);
      contradiction.
  - exists status. split; [exact Hs|]. split.
    + intros ->. exact Hw.
    + intros before -> old new. rewrite Hw. apply changed_spec.
Qed.

Lemma check_status_warnings_witness :
  exists status,
    status_response (check_status (Some "a;c;LIN1") (status_line "2"))
    = Some status
    /\ In ("c", "b")
          (warnings (check_status (Some "a;c;LIN1") (status_line "2"))).
Proof.
  destruct (check_status_warnings (Some "a;c;LIN1") (status_line "2"))
    as (status & Hs & _ & Hw); [reflexivity | reflexivity |].
  exists status. split; [exact Hs|].
  apply (Hw "a;c;LIN1" eq_refl). exists 1%nat.
  vm_compute in Hs. injection Hs as <-.
  split; [reflexivity|]. split; [reflexivity | discriminate].
Defined.

Lemma split_on_cons (sep : ascii) (s : string) :
  exists first others, split_on sep s = first :: others.
Proof.
  destruct s as [|a s]; cbn [split_on]; [now eexists; eexists|].
  destruct (Ascii.eqb a sep); [now eexists; eexists|].
  destruct (split_on sep s); now eexists; eexists.
Qed.

Lemma split_on_app (sep : ascii) (s t : string) :
  split_on sep (s ++ String sep t)
  = (split_on sep s ++ split_on sep t)%list.
Proof.
  induction s as [|a s IH]; cbn [append split_on].
  - now rewrite Ascii.eqb_refl.
  - rewrite IH. destruct (Ascii.eqb a sep); [reflexivity|].
    destruct (split_on_cons sep s) as (first & others & ->). reflexivity.
Qed.

Lemma changed_prefix (fields more : list string) :
  changed (fields ++ more) fields = [] /\ changed fields (fields ++ more) = [].
Proof.
  induction fields as [|f fields [IH1 IH2]]; cbn [app changed].
  - split; [now destruct more | reflexivity].
  - now rewrite String.eqb_refl.
Qed.

(** X17: no warning is printed when the new status is the previous one, or
    the previous one with further [;]-separated fields after it, or the
    previous one with fields missing at its end: the comparison stops at
    the shorter of the two. *)
Theorem check_status_compares_common_fields
        (before extra : string) (l : line) :
  let r := check_status (Some before) l in
  caught r = None ->
  propagated r = None ->
  status_response r = Some before
  \/ status_response r = Some (before ++ ";" ++ extra)
  \/ (exists status, status_response r = Some status
                     /\ before = status ++ ";" ++ extra) ->
  warnings r = [].
Proof.
  intros r Hc Hp H. subst r.
  destruct (check_status_cases (Some before) l)
    as [[f Hf]|(status & Hs & _ & _ & Hw)].
  - rewrite Hf in Hc, Hp.
    destruct (check_status_failed_spec (Some before) f)
      as (_ & _ & [H'|H'] & _); contradiction.
  - rewrite Hw. rewrite Hs in H.
    destruct H as [[= ->]|[[= ->]|(status' & [= ->] & ->)]].
    + rewrite <- (app_nil_r (split_on ";" before)) at 1.
      apply changed_prefix.
    + change (before ++ ";" ++ extra) with (before ++ String ";" extra).
      rewrite split_on_app. apply changed_prefix.
    + change (status' ++ ";" ++ extra) with (status' ++ String ";" extra).
      rewrite split_on_app. apply changed_prefix.
Qed.

Lemma check_status_compares_common_fields_witness :
  warnings (check_status (Some "a;b;LIN1") (status_line "1;x")) = [].
Proof.
  apply (check_status_compares_common_fields "a;b;LIN1" "x"
           (status_line "1;x"));
    [reflexivity | reflexivity | right; left; reflexivity].
Defined.

Local Close Scope string_scope.

(** ** Degenerate requests and undecodable frames *)

(** X18: requests that ask for nothing sensible.  A negative number of
    data points raises [ValueError] (from [np.zeros]) before the socket is
    touched.  With an empty channel list and a positive number of data
    points, the call raises [ValueError] (from [max]) as soon as 32 bytes
    are buffered, whatever the header; if the wait for them times out it
    returns [data_points] empty rows. *)
Theorem get_data_degenerate
        (itemsize fuel : nat) (data_points : Z) (channels : list Z)
        (s : socket) :
  (data_points < 0 ->
   get_data itemsize fuel data_points channels s = Some (inl ValueError, s))
  /\ (0 < data_points -> channels = [] ->
      forall buf s',
        (await 32 [] s = Filled buf s' ->
         get_data itemsize (S fuel) data_points channels s
         = Some (inl ValueError, s'))
        /\ (await 32 [] s = TimedOut buf s' ->
            get_data itemsize (S fuel) data_points channels s
            = Some (inr (Array2 (repeat [] (Z.to_nat data_points))), s'))).
Proof.
  split.
  - intros H. unfold get_data, get_data_run.
    apply Z.ltb_lt in H. now rewrite H.
  - intros H -> buf s'. unfold get_data, get_data_run.
    destruct (data_points <? 0) eqn:E; [apply Z.ltb_lt in E; lia|].
    destruct (Z.to_nat data_points) as [|n] eqn:En; [lia|].
    cbn [get_data_loop initial received_data_points data_stream sock data
         Nat.ltb Nat.leb].
    split; intros Hw; rewrite Hw.
    + destruct (await_filled _ _ _ _ _ Hw) as [Hlen _].
      rewrite (inspect_header_fields buf) by lia. reflexivity.
    + reflexivity.
Qed.

Lemma get_data_degenerate_witness :
  get_data 4 1 (-1) [0] [Recv header_2ch_3x8]
  = Some (inl ValueError, [Recv header_2ch_3x8])
  /\ get_data 4 1 2 [] [Recv header_2ch_3x8] = Some (inl ValueError, []).
Proof.
  split.
  - apply (get_data_degenerate 4 1 (-1) [0] [Recv header_2ch_3x8]). lia.
  - destruct (get_data_degenerate 4 0 2 [] [Recv header_2ch_3x8])
      as [_ H].
    destruct (H ltac:(lia) eq_refl header_2ch_3x8 []) as [Hf _].
    apply Hf. reflexivity.
Defined.

Lemma inspect_header_product (data_stream : bytes) (h : header_info) :
  inspect_header data_stream = Some h ->
  payload_size h = bytes_per_frame h * nr_of_frames h.
Proof.
  intros Hh. pose proof (inspect_header_some_length _ _ Hh) as Hge.
  rewrite (inspect_header_fields _ Hge) in Hh. injection Hh as <-.
  reflexivity.
Qed.

(** X19: a packet whose frame size is not a multiple of the size of
    [np.dtype(int)] cannot be decoded.  If the first chunk holds a whole
    packet that passes the channel check, with at least one frame and a
    positive frame size that the item size does not divide, a request for
    at least one data point raises [ValueError] at the first frame. *)
Theorem get_data_frame_size_mismatch
        (itemsize fuel : nat) (data_points : nat) (channels : list Z)
        (hdr payload rest : bytes) (s : socket) (h : header_info) (m : Z) :
  (0 < data_points)%nat ->
  List.length hdr = 32%nat ->
  inspect_header hdr = Some h ->
  payload_size h = Z.of_nat (List.length payload) ->
  0 < nr_of_frames h ->
  0 < bytes_per_frame h ->
  (Z.to_nat (bytes_per_frame h) mod itemsize <> 0)%nat ->
  py_max channels = Some m ->
  m < nr_of_channels h ->
  get_data itemsize (S fuel) (Z.of_nat data_points) channels
           (Recv (hdr ++ payload ++ rest) :: s)
  = Some (inl ValueError, s).
Proof.
  intros Hn Hlen Hh Hps Hnf Hbpf Hmod Hm Hch.
  set (X := (hdr ++ payload ++ rest)%list).
  assert (HX : 32 + Z.of_nat (List.length payload)
               <= Z.of_nat (List.length X)).
  { subst X. rewrite !length_app. lia. }
  unfold get_data, get_data_run.
  destruct (Z.of_nat data_points <? 0) eqn:E; [apply Z.ltb_lt in E; lia|].
  rewrite Nat2Z.id. unfold initial.
  cbn [get_data_loop received_data_points data_stream sock data].
  apply Nat.ltb_lt in Hn. rewrite Hn.
  change (await 32 [] (Recv X :: s)) with (await 32 X s).
  rewrite (await_enough 32 X s) by lia.
  assert (HhX : inspect_header X = Some h)
    by (subst X; rewrite inspect_header_app by lia; exact Hh).
  rewrite HhX, Hm.
  destruct (m + 1 >? nr_of_channels h) eqn:Ec;
    [rewrite Z.gtb_ltb in Ec; apply Z.ltb_lt in Ec; lia|].
  rewrite Hps, (await_enough _ X s) by lia.
  destruct (buffered_packet X [] hdr payload rest)
    as [Hpl _]; [now rewrite app_nil_r | exact Hlen | exact HX |].
  rewrite Hpl.
  destruct (Z.to_nat (nr_of_frames h)) as [|k] eqn:Ek; [lia|].
  cbn [seq frames_loop]. rewrite Hn.
  assert (Hfirst : List.length (slice payload (Z.of_nat 0 * bytes_per_frame h)
                                      ((Z.of_nat 0 + 1) * bytes_per_frame h))
                   = Z.to_nat (bytes_per_frame h)).
  { change (Z.of_nat 0 * bytes_per_frame h) with (Z.of_nat 0).
    replace ((Z.of_nat 0 + 1) * bytes_per_frame h)
      with (Z.of_nat (Z.to_nat (bytes_per_frame h))) by lia.
    pose proof (inspect_header_product _ _ Hh) as Hprod.
    assert (Hle : (Z.to_nat (bytes_per_frame h) <= List.length payload)%nat)
      by nia.
    rewrite slice_firstn_skipn by lia. cbn [skipn].
    rewrite length_firstn. lia. }
  unfold frombuffer. rewrite Hfirst.
  destruct (Z.to_nat (bytes_per_frame h) mod itemsize =? 0)%nat eqn:Em;
    [apply Nat.eqb_eq in Em; contradiction | reflexivity].
Qed.

Lemma get_data_frame_size_mismatch_witness :
  get_data 4 1 2 [0; 1] [Recv (header_3_8 ++ payload_3x8 ++ [])]
  = Some (inl ValueError, []).
Proof.
  apply (get_data_frame_size_mismatch 4 0 2 [0; 1] header_3_8 payload_3x8
           [] []
           {| nr_of_channels := 2; nr_of_frames := 8;
              bytes_per_frame := 3; payload_size := 24 |} 1);
    [lia | reflexivity | reflexivity | reflexivity | cbn; lia | cbn; lia
    | vm_compute; discriminate | reflexivity | cbn; lia].
Defined.

(** ** Decoding what the device encodes *)

Lemma byte_val_of_Z (z : Z) : byte_val (byte_of_Z z) = z mod 256.
Proof.
  unfold byte_of_Z, byte_val.
  pose proof (Z.mod_pos_bound z 256 ltac:(lia)) as Hb.
  destruct (Byte.of_N (Z.to_N (z mod 256))) as [b|] eqn:E.
  - apply Byte.to_of_N in E. rewrite E. lia.
  - apply Byte.of_N_None_iff in E. lia.
Qed.

Lemma le_encode_length (k : nat) : forall z, List.length (le_encode k z) = k.
Proof.
  induction k as [|k IH]; intros z; cbn [le_encode List.length];
    [reflexivity | now rewrite IH].
Qed.

Lemma le_unsigned_encode (k : nat) :
  forall z, le_unsigned (le_encode k z) = z mod 2 ^ (8 * Z.of_nat k).
Proof.
  induction k as [|k IH]; intros z; cbn [le_encode le_unsigned].
  - change (2 ^ (8 * Z.of_nat 0)) with 1. now rewrite Z.mod_1_r.
  - rewrite byte_val_of_Z, IH.
    replace (8 * Z.of_nat (S k)) with (8 + 8 * Z.of_nat k) by lia.
    rewrite Z.pow_add_r by lia. change (2 ^ 8) with 256.
    rewrite Z.rem_mul_r by lia. reflexivity.
Qed.

(** Reading back an encoded item gives the value, within the range of the
    item. *)
Lemma le_signed_encode (k : nat) (z : Z) :
  (0 < k)%nat -> fits k z -> le_signed (le_encode k z) = z.
Proof.
  unfold fits, le_signed. intros Hk Hz.
  rewrite le_encode_length, le_unsigned_encode.
  set (w := 8 * Z.of_nat k) in *.
  assert (Hw : 2 ^ w = 2 * 2 ^ (w - 1)).
  { replace w with (1 + (w - 1)) at 1 by lia.
    rewrite Z.pow_add_r by lia. reflexivity. }
  assert (Hp : 0 < 2 ^ (w - 1)) by (apply Z.pow_pos_nonneg; lia).
  destruct (Z.lt_ge_cases z 0) as [Hneg|Hpos].
  - assert (Hm : z mod 2 ^ w = z + 2 ^ w).
    { symmetry. apply (Z.mod_unique _ _ (-1)); lia. }
    rewrite Hm. destruct (z + 2 ^ w <? 2 ^ (w - 1)) eqn:E;
      [apply Z.ltb_lt in E; lia | lia].
  - rewrite Z.mod_small by lia.
    destruct (z <? 2 ^ (w - 1)) eqn:E; [reflexivity|].
    apply Z.ltb_ge in E. lia.
Qed.

Lemma firstn_exact {A} (n : nat) (a b : list A) :
  List.length a = n -> firstn n (a ++ b) = a.
Proof.
  intros <-. rewrite firstn_app, firstn_all, Nat.sub_diag. cbn [firstn].
  apply app_nil_r.
Qed.

Lemma skipn_exact {A} (n : nat) (a b : list A) :
  List.length a = n -> skipn n (a ++ b) = b.
Proof.
  intros <-. rewrite skipn_app, skipn_all, Nat.sub_diag. reflexivity.
Qed.

Lemma items_of_encode (k : nat) (values : list Z) :
  (0 < k)%nat -> Forall (fits k) values ->
  forall more,
    items_of k (List.length values) (frame_bytes k values ++ more) = values.
Proof.
  intros Hk. induction 1 as [|v values Hv _ IH]; intros more;
    cbn [List.length items_of frame_bytes flat_map]; [reflexivity|].
  rewrite <- app_assoc.
  rewrite firstn_exact, skipn_exact by apply le_encode_length.
  rewrite (le_signed_encode k v Hk Hv). f_equal. apply IH.
Qed.

Lemma frame_bytes_length (k : nat) (values : list Z) :
  List.length (frame_bytes k values) = (List.length values * k)%nat.
Proof.
  unfold frame_bytes. induction values as [|v values IH];
    cbn [flat_map List.length]; [reflexivity|].
  rewrite length_app, le_encode_length, IH. lia.
Qed.

(** [np.frombuffer] undoes the encoding of a frame. *)
Lemma frombuffer_encode (k : nat) (values : list Z) :
  (0 < k)%nat -> Forall (fits k) values ->
  frombuffer k (frame_bytes k values) = Some values.
Proof.
  intros Hk Hv. unfold frombuffer. rewrite frame_bytes_length.
  rewrite Nat.Div0.mod_mul, Nat.div_mul by lia. cbn [Nat.eqb].
  rewrite <- (app_nil_r (frame_bytes k values)).
  now rewrite items_of_encode.
Qed.

Lemma slice_middle {A} (before mid after : list A) :
  slice (before ++ mid ++ after) (Z.of_nat (List.length before))
        (Z.of_nat (List.length before + List.length mid))
  = mid.
Proof.
  rewrite slice_firstn_skipn by (rewrite !length_app; lia).
  rewrite skipn_app, skipn_all, Nat.sub_diag. cbn [app skipn].
  replace (List.length before + List.length mid - List.length before)%nat
    with (List.length mid) by lia.
  rewrite firstn_app, firstn_all, Nat.sub_diag. cbn [firstn].
  apply app_nil_r.
Qed.

(** The frame loop's view of an encoded table of frames of one width:
    frame [i] is read from bytes [i * bytes_per_frame] on. *)
Lemma frame_rows_encode (k width : nat) (channels : list Z) :
  (0 < k)%nat ->
  forall frames rows earlier,
    Forall (fun frame => List.length frame = width /\ Forall (fits k) frame)
           (earlier ++ frames) ->
    project channels frames = Some rows ->
    frame_rows k channels
      (flat_map (frame_bytes k) (earlier ++ frames))
      (Z.of_nat (width * k))
      (seq (List.length earlier) (List.length frames))
    = Some rows.
Proof.
  intros Hk. induction frames as [|frame frames IH];
    intros rows earlier Hall; cbn [project List.length seq frame_rows].
  - intros [= <-]. reflexivity.
  - destruct (take frame channels) as [row|] eqn:Ht; [|discriminate].
    destruct (project channels frames) as [rows'|] eqn:Hp; [|discriminate].
    intros [= <-].
    assert (Hframe : List.length frame = width /\ Forall (fits k) frame).
    { rewrite Forall_app in Hall. destruct Hall as [_ Hf].
      now inversion Hf. }
    destruct Hframe as [Hw Hfit].
    assert (Hbefore : List.length (flat_map (frame_bytes k) earlier)
                      = (List.length earlier * (width * k))%nat).
    { rewrite Forall_app in Hall. destruct Hall as [He _].
      clear -He. induction He as [|f fs [Hf _] _ IHe];
        cbn [flat_map List.length]; [reflexivity|].
      rewrite length_app, frame_bytes_length, IHe, Hf. lia. }
    rewrite flat_map_app. cbn [flat_map].
    replace (Z.of_nat (List.length earlier) * Z.of_nat (width * k))
      with (Z.of_nat (List.length (flat_map (frame_bytes k) earlier)))
      by (rewrite Hbefore; lia).
    replace ((Z.of_nat (List.length earlier) + 1) * Z.of_nat (width * k))
      with (Z.of_nat (List.length (flat_map (frame_bytes k) earlier)
                      + List.length (frame_bytes k frame)))
      by (rewrite Hbefore, frame_bytes_length, Hw; lia).
    rewrite slice_middle, (frombuffer_encode k frame Hk Hfit), Ht.
    specialize (IH rows' (earlier ++ [frame])%list).
    rewrite <- app_assoc in IH. cbn [app] in IH.
    rewrite length_app in IH. cbn [List.length] in IH.
    rewrite Nat.add_1_r in IH. rewrite flat_map_app in IH.
    cbn [flat_map] in IH. rewrite IH; [reflexivity | exact Hall | reflexivity].
Qed.

(** X20: [get_data] decodes what the device encodes.  Take a table of
    frames of one width whose values fit the item size, sent as one packet:
    a header that decodes to that number of frames and to a frame size of
    width times item size, followed by the frames, each item little-endian
    two's complement.  If the header passes the channel check and the
    channels index the frames, a request for no more data points than
    there are frames returns the requested channels of the first
    [data_points] frames, transposed (flat for one channel), however the
    bytes are cut into chunks. *)
Theorem get_data_decodes_frames
        (itemsize width data_points fuel : nat) (channels : list Z)
        (hdr : bytes) (h : header_info) (m : Z)
        (frames rows : list (list Z)) (chunks : list bytes) :
  (0 < itemsize)%nat ->
  List.length hdr = 32%nat ->
  inspect_header hdr = Some h ->
  nr_of_frames h = Z.of_nat (List.length frames) ->
  bytes_per_frame h = Z.of_nat (width * itemsize) ->
  Forall (fun frame => List.length frame = width
                       /\ Forall (fits itemsize) frame) frames ->
  py_max channels = Some m ->
  m < nr_of_channels h ->
  project channels frames = Some rows ->
  List.concat chunks = (hdr ++ flat_map (frame_bytes itemsize) frames)%list ->
  (data_points <= List.length frames)%nat ->
  (1 < fuel)%nat ->
  option_map fst (get_data itemsize fuel (Z.of_nat data_points) channels
                           (deliver chunks))
  = Some (inr (channel_major channels (firstn data_points rows))).
Proof.
  intros Hk Hlen Hh Hnf Hbpf Hall Hm Hch Hproj Hc Hn Hfuel.
  set (payload := flat_map (frame_bytes itemsize) frames).
  assert (Hrows : frame_rows itemsize channels payload (bytes_per_frame h)
                    (seq 0 (Z.to_nat (nr_of_frames h))) = Some rows).
  { rewrite Hnf, Hbpf, Nat2Z.id.
    apply (frame_rows_encode itemsize width channels Hk frames rows []);
      assumption. }
  assert (Hpl : List.length payload
                = (List.length frames * (width * itemsize))%nat).
  { subst payload. clear -Hall. induction Hall as [|f fs [Hf _] _ IH];
      cbn [flat_map List.length]; [reflexivity|].
    rewrite length_app, frame_bytes_length, IH, Hf. lia. }
  assert (Hrl : List.length rows = List.length frames).
  { clear -Hproj. revert rows Hproj.
    induction frames as [|f fs IH]; intros rows; cbn [project].
    - intros [= <-]. reflexivity.
    - destruct (take f channels); [|discriminate].
      destruct (project channels fs) as [rs|]; [|discriminate].
      intros [= <-]. cbn [List.length]. now rewrite (IH rs eq_refl). }
  assert (Hwf : forallb well_formed [(hdr, payload)] = true).
  { cbn [forallb]. unfold well_formed. cbn [fst snd].
    rewrite Hlen, Hh, (inspect_header_product _ _ Hh), Hbpf, Hnf, Hpl.
    cbn [Nat.eqb andb]. rewrite andb_true_r. apply Z.eqb_eq. lia. }
  assert (Hstream : stream_rows itemsize channels [(hdr, payload)]
                    = Some rows).
  { cbn [stream_rows]. unfold packet_rows. cbn [fst snd].
    rewrite Hh, Hm.
    destruct (m + 1 >? nr_of_channels h) eqn:E;
      [rewrite Z.gtb_ltb in E; apply Z.ltb_lt in E; lia|].
    rewrite Hrows. now rewrite app_nil_r. }
  assert (Hwire : List.concat chunks = wire [(hdr, payload)]).
  { rewrite Hc. unfold wire. cbn [flat_map fst snd]. now rewrite app_nil_r. }
  rewrite get_data_returned. unfold get_data_run.
  destruct (Z.of_nat data_points <? 0) eqn:E; [apply Z.ltb_lt in E; lia|].
  rewrite Nat2Z.id. unfold initial.
  rewrite (loop_chunking itemsize data_points channels fuel
             [(hdr, payload)] [] chunks) by assumption.
  pose proof (loop_rows itemsize data_points channels [(hdr, payload)]
                fuel [] rows Hwf Hstream
                ltac:(cbn [List.length]; lia)
                ltac:(cbn [List.length]; lia)) as H.
  cbn [app List.length] in H. rewrite Nat.sub_0_r in H. rewrite H.
  destruct (Nat.leb_spec data_points (List.length rows));
    [reflexivity | lia].
Qed.

Lemma get_data_decodes_frames_witness :
  option_map fst
    (get_data 4 2 2 [1; 0]
       (deliver (bytewise
          (header_2ch_3x8
           ++ flat_map (frame_bytes 4) [[10; -20]; [11; -21]; [12; -22]]))))
  = Some (inr (Array2 [[-20; -21]; [10; 11]])).
Proof.
  apply (get_data_decodes_frames 4 2 2 2 [1; 0] header_2ch_3x8
           {| nr_of_channels := 2; nr_of_frames := 3;
              bytes_per_frame := 8; payload_size := 24 |} 1
           [[10; -20]; [11; -21]; [12; -22]]
           [[-20; 10]; [-21; 11]; [-22; 12]]);
    [lia | reflexivity | reflexivity | reflexivity | reflexivity
    | | reflexivity | cbn; lia | reflexivity | apply concat_bytewise
    | cbn; lia | lia].
  repeat (constructor; [split; [reflexivity|];
                        repeat (constructor; [unfold fits; cbn; lia|]);
                        constructor|]).
  constructor.
Defined.
